(** * Review scheduling and mastery tracking of the wrong-question notebook

    A shallow embedding of the stateful core of [src/index.tsx]: the
    question store ([loadQuestions], [saveQuestions], [handleSaveQuestion],
    [handleUpdateQuestion]), the half-month period grouping ([getPeriodKey],
    [periodGroups], [periods]), the exam pool selection ([startRandomExam],
    [startPeriodExam]) and the exam walkthrough ([handleNext],
    [handleUpdateMastery], the previous button).

    Conventions of the embedding.
    - JavaScript numbers that the program only ever uses as integers (time
      values, counters, indices) are [Z]; this is exact below 2^53, which
      covers every time value a [Date] can hold (at most 8.64e15).
    - [NaN] where the program can produce it (the fields of an invalid
      [Date]) is [None].
    - Strings are sequences of bytes (the UTF-8 encoding of the source text).
    - React state is passed explicitly; [Date.now()] and [Math.random()] are
      inputs of the handlers that read them.
    - A thrown exception is an explicit result ([Throw]). *)

From Stdlib Require Import ZArith QArith Lia Ascii DecimalString DecimalZ.
From Stdlib Require Import Permutation Sorted.
From stdpp Require Import base option list sorting strings gmap.

Local Open Scope Z_scope.
Set Warnings "-register-all".

(** ** JavaScript values the program relies on *)

Module JS.

(** Result of evaluating code that may throw. *)
Inductive error := SyntaxError | TypeError.

Inductive completion (A : Type) :=
| Return (a : A)
| Throw (e : error).
Arguments Return {A} a.
Arguments Throw {A} e.

(** [Number.prototype.toString] and template interpolation of an integer:
    the plain decimal numeral, with a leading minus sign below zero (the
    exponent notation only starts at 1e21). *)
Definition Number_toString (n : Z) : string :=
  NilZero.string_of_int (Z.to_int n).

(** Interpolation of a number that may be [NaN]. *)
Definition interpolate (n : option Z) : string :=
  match n with
  | Some z => Number_toString z
  | None => "NaN"
  end.

(** [arr[i]]: [undefined] ([None]) outside the array. *)
Definition array_get {A} (arr : list A) (i : Z) : option A :=
  if 0 <=? i then arr !! Z.to_nat i else None.

(** [arr[i] = v] on a copy, for an index inside the array. *)
Definition array_set {A} (arr : list A) (i : Z) (v : A) : list A :=
  if 0 <=? i then <[Z.to_nat i := v]> arr else arr.

(** [Array.prototype.length] as a number. *)
Definition array_length {A} (arr : list A) : Z := Z.of_nat (length arr).

End JS.
Export JS.

(** ** Types and constants (lines 8-40) *)

Inductive QuestionCategory :=
| cat_yanyu      (* 言语理解与表达 *)
| cat_shuliang   (* 数量关系 *)
| cat_panduan    (* 判断推理 *)
| cat_ziliao     (* 资料分析 *)
| cat_changshi   (* 常识判断 *)
| cat_anli       (* 综合应用-案例分析 *)
| cat_wenshu     (* 综合应用-文书写作 *)
| cat_other.     (* 其他 *)

Inductive Subject :=
| zhice          (* 职测 *)
| zongying.      (* 综应 *)

(** [type MasteryStatus = 'mastered' | 'review_needed' | null]. *)
Inductive MasteryStatus := mastered | review_needed | status_null.

(** [interface Question]. The two optional properties ([rootCause?],
    [masteryStatus?]) are [None] when the property is absent. *)
Record Question := mkQuestion {
  id : string;
  imageUrl : string;
  subject : Subject;
  category : QuestionCategory;
  subCategory : string;
  questionText : string;
  aiAnalysis : string;
  myThinking : string;
  correctResolution : string;
  rootCause : option string;
  masteryStatus : option MasteryStatus;
  createdAt : Z;
  reviewCount : Z;
  lastReviewedAt : option Z
}.

Global Instance QuestionCategory_eq_dec : EqDecision QuestionCategory.
Proof. solve_decision. Defined.
Global Instance Subject_eq_dec : EqDecision Subject.
Proof. solve_decision. Defined.
Global Instance MasteryStatus_eq_dec : EqDecision MasteryStatus.
Proof. solve_decision. Defined.
Global Instance Question_eq_dec : EqDecision Question.
Proof. solve_decision. Defined.

Definition CATEGORIES (s : Subject) : list QuestionCategory :=
  match s with
  | zhice => [cat_yanyu; cat_shuliang; cat_panduan; cat_ziliao; cat_changshi]
  | zongying => [cat_anli; cat_wenshu]
  end.

Definition STORAGE_KEY : string := "sd_exam_wrong_questions_v1".

(** ** [JSON.parse] and [JSON.stringify]

    The text format of the persisted blob. [JSON.parse] is the recogniser of
    the JSON grammar (ECMA-404) written as a pushdown automaton that reads
    one character at a time, so it is total without fuel. The value it
    returns keeps numbers and strings as they are spelled in the text
    (escape sequences are not decoded): the claims only depend on whether
    the text parses and on the shape of the value. *)

Module JSON.

Inductive json :=
| JNull
| JBool (b : bool)
| JNumber (lexeme : string)
| JString (text : string)
| JArray (items : list json)
| JObject (members : list (string * json)).

(** A container under construction; an object remembers the key whose value
    is being read. *)
Inductive frame :=
| FArray (items_rev : list json)
| FObject (members_rev : list (string * json)) (key : option string).

Inductive numstate :=
| NMinus | NZero | NInt | NDot | NFrac | NExp | NExpSign | NExpDigits.

Inductive phase :=
| PValue                     (* a value must start *)
| PArrayStart                (* after '[': a value or ']' *)
| PObjectStart               (* after '{': a key or '}' *)
| PKey                       (* after ',' in an object: a key *)
| PColon                     (* after a key *)
| PAfter                     (* after a value inside a container *)
| PDone (v : json)           (* the top-level value is complete *)
| PString (is_key : bool) (acc_rev : string)
| PEscape (is_key : bool) (acc_rev : string)
| PUnicode (is_key : bool) (acc_rev : string) (remaining : nat)
| PNumber (st : numstate) (acc_rev : string)
| PLiteral (rest : string) (v : json).

Definition state : Type := phase * list frame.

Definition is_ws (c : ascii) : bool :=
  match c with
  | " " | "009" | "010" | "013" => true
  | _ => false
  end%char.

Definition is_digit (c : ascii) : bool :=
  match c with
  | "0" | "1" | "2" | "3" | "4" | "5" | "6" | "7" | "8" | "9" => true
  | _ => false
  end%char.

Definition is_hex (c : ascii) : bool :=
  is_digit c ||
  match c with
  | "a" | "b" | "c" | "d" | "e" | "f" | "A" | "B" | "C" | "D" | "E" | "F" => true
  | _ => false
  end%char.

(** The double quote character. *)
Definition dquote : ascii := "034".

Definition is_control (c : ascii) : bool := (nat_of_ascii c <? 32)%nat.

Fixpoint rev_string (s acc : string) : string :=
  match s with
  | EmptyString => acc
  | String c s' => rev_string s' (String c acc)
  end.

(** A value [v] has been read completely below the containers [stk]. *)
Definition complete (v : json) (stk : list frame) : option state :=
  match stk with
  | [] => Some (PDone v, [])
  | FArray items :: stk' => Some (PAfter, FArray (v :: items) :: stk')
  | FObject ms (Some k) :: stk' => Some (PAfter, FObject ((k, v) :: ms) None :: stk')
  | FObject _ None :: _ => None
  end.

(** The character after a complete value. *)
Definition after_value (st : state) (c : ascii) : option state :=
  match st with
  | (PDone v, stk) => if is_ws c then Some (PDone v, stk) else None
  | (PAfter, stk) =>
      if is_ws c then Some (PAfter, stk) else
      match c, stk with
      | ","%char, FArray _ :: _ => Some (PValue, stk)
      | ","%char, FObject _ None :: _ => Some (PKey, stk)
      | "]"%char, FArray items :: stk' => complete (JArray (rev items)) stk'
      | "}"%char, FObject ms None :: stk' => complete (JObject (rev ms)) stk'
      | _, _ => None
      end
  | _ => None
  end.

(** The first character of a value. *)
Definition start_value (stk : list frame) (c : ascii) : option state :=
  match c with
  | "{" => Some (PObjectStart, FObject [] None :: stk)
  | "[" => Some (PArrayStart, FArray [] :: stk)
  | "034" => Some (PString false EmptyString, stk)
  | "-" => Some (PNumber NMinus (String c EmptyString), stk)
  | "0" => Some (PNumber NZero (String c EmptyString), stk)
  | "t" => Some (PLiteral "rue" (JBool true), stk)
  | "f" => Some (PLiteral "alse" (JBool false), stk)
  | "n" => Some (PLiteral "ull" JNull, stk)
  | _ => if is_digit c then Some (PNumber NInt (String c EmptyString), stk) else None
  end%char.

Definition is_exp (c : ascii) : bool :=
  match c with "e" | "E" => true | _ => false end%char.

Definition is_sign (c : ascii) : bool :=
  match c with "+" | "-" => true | _ => false end%char.

(** May a number stop in this state? *)
Definition num_final (st : numstate) : bool :=
  match st with
  | NZero | NInt | NFrac | NExpDigits => true
  | _ => false
  end.

(** The next state of the number automaton, [None] when [c] does not
    continue the number. *)
Definition num_step (st : numstate) (c : ascii) : option numstate :=
  match st with
  | NMinus => if Ascii.eqb c "0" then Some NZero
              else if is_digit c then Some NInt else None
  | NZero => if Ascii.eqb c "." then Some NDot
             else if is_exp c then Some NExp else None
  | NInt => if is_digit c then Some NInt
            else if Ascii.eqb c "." then Some NDot
            else if is_exp c then Some NExp else None
  | NDot => if is_digit c then Some NFrac else None
  | NFrac => if is_digit c then Some NFrac
             else if is_exp c then Some NExp else None
  | NExp => if is_sign c then Some NExpSign
            else if is_digit c then Some NExpDigits else None
  | NExpSign => if is_digit c then Some NExpDigits else None
  | NExpDigits => if is_digit c then Some NExpDigits else None
  end.

Definition is_simple_escape (c : ascii) : bool :=
  match c with
  | "034" | "\" | "/" | "b" | "f" | "n" | "r" | "t" => true
  | _ => false
  end%char.

(** A string literal is closed. *)
Definition end_string (is_key : bool) (acc_rev : string) (stk : list frame)
  : option state :=
  let s := rev_string acc_rev EmptyString in
  if is_key then
    match stk with
    | FObject ms None :: stk' => Some (PColon, FObject ms (Some s) :: stk')
    | _ => None
    end
  else complete (JString s) stk.

Definition step (st : state) (c : ascii) : option state :=
  let '(ph, stk) := st in
  match ph with
  | PValue => if is_ws c then Some st else start_value stk c
  | PArrayStart =>
      if is_ws c then Some st else
      if Ascii.eqb c "]" then
        match stk with
        | FArray items :: stk' => complete (JArray (rev items)) stk'
        | _ => None
        end
      else start_value stk c
  | PObjectStart =>
      if is_ws c then Some st else
      if Ascii.eqb c "}" then
        match stk with
        | FObject ms None :: stk' => complete (JObject (rev ms)) stk'
        | _ => None
        end
      else if Ascii.eqb c dquote then Some (PString true EmptyString, stk)
      else None
  | PKey =>
      if is_ws c then Some st else
      if Ascii.eqb c dquote then Some (PString true EmptyString, stk) else None
  | PColon =>
      if is_ws c then Some st else
      if Ascii.eqb c ":" then Some (PValue, stk) else None
  | PAfter | PDone _ => after_value st c
  | PString k acc =>
      if Ascii.eqb c dquote then end_string k acc stk
      else if Ascii.eqb c "\" then Some (PEscape k (String c acc), stk)
      else if is_control c then None
      else Some (PString k (String c acc), stk)
  | PEscape k acc =>
      if is_simple_escape c then Some (PString k (String c acc), stk)
      else if Ascii.eqb c "u" then Some (PUnicode k (String c acc) 4, stk)
      else None
  | PUnicode k acc n =>
      if is_hex c then
        match n with
        | 0%nat | 1%nat => Some (PString k (String c acc), stk)
        | S n' => Some (PUnicode k (String c acc) n', stk)
        end
      else None
  | PNumber ns acc =>
      match num_step ns c with
      | Some ns' => Some (PNumber ns' (String c acc), stk)
      | None =>
          if num_final ns then
            match complete (JNumber (rev_string acc EmptyString)) stk with
            | Some st' => after_value st' c
            | None => None
            end
          else None
      end
  | PLiteral rest v =>
      match rest with
      | String c' rest' =>
          if Ascii.eqb c c' then
            match rest' with
            | EmptyString => complete v stk
            | _ => Some (PLiteral rest' v, stk)
            end
          else None
      | EmptyString => None
      end
  end.

Fixpoint run (st : state) (text : string) : option state :=
  match text with
  | EmptyString => Some st
  | String c text' =>
      match step st c with
      | Some st' => run st' text'
      | None => None
      end
  end.

(** The value at the end of the text, if the text is a complete value. *)
Definition finish (st : state) : option json :=
  match st with
  | (PDone v, []) => Some v
  | (PNumber ns acc, []) =>
      if num_final ns then Some (JNumber (rev_string acc EmptyString)) else None
  | _ => None
  end.

(** [JSON.parse(text)]: the value, or a thrown [SyntaxError]. *)
Definition parse (text : string) : completion json :=
  match run (PValue, []) text with
  | Some st =>
      match finish st with
      | Some v => Return v
      | None => Throw SyntaxError
      end
  | None => Throw SyntaxError
  end.

(** [JSON.stringify] of the question collection. *)

Definition hex_digit (n : nat) : ascii :=
  match n with
  | 0 => "0" | 1 => "1" | 2 => "2" | 3 => "3" | 4 => "4" | 5 => "5"
  | 6 => "6" | 7 => "7" | 8 => "8" | 9 => "9" | 10 => "a" | 11 => "b"
  | 12 => "c" | 13 => "d" | 14 => "e" | _ => "f"
  end%nat%char.

(** One character inside a string literal. *)
Definition quote_char (c : ascii) : string :=
  match c with
  | "034"%char => String "\" (String dquote EmptyString)
  | "\"%char => "\\"
  | "008"%char => "\b"
  | "012"%char => "\f"
  | "010"%char => "\n"
  | "013"%char => "\r"
  | "009"%char => "\t"
  | _ =>
      if is_control c then
        let n := nat_of_ascii c in
        "\u00" +:+
        String (hex_digit (n / 16)) (String (hex_digit (n mod 16)) EmptyString)
      else String c EmptyString
  end.

Fixpoint quote_body (s : string) : string :=
  match s with
  | EmptyString => EmptyString
  | String c s' => quote_char c +:+ quote_body s'
  end.

Definition quote (s : string) : string :=
  String dquote (quote_body s +:+ String dquote EmptyString).

Fixpoint join (sep : string) (parts : list string) : string :=
  match parts with
  | [] => EmptyString
  | [p] => p
  | p :: rest => p +:+ sep +:+ join sep rest
  end.

Definition member (k v : string) : string := quote k +:+ ":" +:+ v.

Definition Subject_text (s : Subject) : string :=
  match s with
  | zhice => "职测"
  | zongying => "综应"
  end.

Definition QuestionCategory_text (c : QuestionCategory) : string :=
  match c with
  | cat_yanyu => "言语理解与表达"
  | cat_shuliang => "数量关系"
  | cat_panduan => "判断推理"
  | cat_ziliao => "资料分析"
  | cat_changshi => "常识判断"
  | cat_anli => "综合应用-案例分析"
  | cat_wenshu => "综合应用-文书写作"
  | cat_other => "其他"
  end.

Definition MasteryStatus_json (m : MasteryStatus) : string :=
  match m with
  | mastered => quote "mastered"
  | review_needed => quote "review_needed"
  | status_null => "null"
  end.

(** The properties in the order the object literal of [handleSave] creates
    them; a property that is absent ([undefined]) is left out. *)
Definition stringify_Question (q : Question) : string :=
  "{" +:+
  join ","
    ([ member "id" (quote (id q));
       member "imageUrl" (quote (imageUrl q));
       member "subject" (quote (Subject_text (subject q)));
       member "category" (quote (QuestionCategory_text (category q)));
       member "subCategory" (quote (subCategory q));
       member "questionText" (quote (questionText q));
       member "aiAnalysis" (quote (aiAnalysis q));
       member "myThinking" (quote (myThinking q));
       member "correctResolution" (quote (correctResolution q)) ]
     ++ match rootCause q with
        | Some r => [ member "rootCause" (quote r) ]
        | None => []
        end
     ++ match masteryStatus q with
        | Some m => [ member "masteryStatus" (MasteryStatus_json m) ]
        | None => []
        end
     ++ [ member "createdAt" (Number_toString (createdAt q));
          member "reviewCount" (Number_toString (reviewCount q));
          member "lastReviewedAt"
            (match lastReviewedAt q with
             | Some t => Number_toString t
             | None => "null"
             end) ])
  +:+ "}".

Definition stringify (qs : list Question) : string :=
  "[" +:+ join "," (map stringify_Question qs) +:+ "]".

End JSON.

(** ** Storage helper (lines 44-53) *)

(** [localStorage]: a map from keys to strings. *)
Abbreviation Storage := (gmap string string).

(** [saveQuestions]: [localStorage.setItem(STORAGE_KEY, JSON.stringify(questions))]. *)
Definition saveQuestions (questions : list Question) (localStorage : Storage)
  : Storage :=
  <[STORAGE_KEY := JSON.stringify questions]> localStorage.

(** Truthiness of a value of type [string | null]: [null] and the empty
    string are falsy. *)
Definition truthy (data : option string) : bool :=
  match data with
  | Some (String _ _) => true
  | _ => false
  end.

(** [loadQuestions]: [data ? JSON.parse(data) : []]. The parsed value is
    returned as it is (the annotation [Question[]] is not checked at run
    time). *)
Definition loadQuestions (localStorage : Storage) : completion JSON.json :=
  let data := localStorage !! STORAGE_KEY in
  if truthy data then
    match data with
    | Some text => JSON.parse text
    | None => Return (JSON.JArray [])
    end
  else Return (JSON.JArray []).

(** ** [Date]: the calendar fields of a time value

    [new Date(ts)] holds the time value [ts] (milliseconds since the epoch,
    UTC) or [NaN] when [ts] is outside the range of dates. The getters
    convert to local time and split the day number of the proleptic
    Gregorian calendar into year, month and day of month. *)

Module Date.

Definition msPerDay : Z := 86400000.

(** Largest magnitude of a time value (100,000,000 days around the epoch). *)
Definition maxTime : Z := 8640000000000000.

(** [TimeClip]: [None] is the [NaN] time value of an invalid date. *)
Definition TimeClip (t : Z) : option Z :=
  if Z.abs t <=? maxTime then Some t else None.

(** [Day(t)]: the day number of a time value (days since 1970-01-01). *)
Definition Day (t : Z) : Z := t / msPerDay.

(** Year, month (1..12) and day of month (1..31) of a day number: the day is
    located in its 400-year era (146097 days, counted from a 1st of March),
    then in the year of the era, then in the month. *)
Definition civil_from_days (day : Z) : Z * Z * Z :=
  let z := day + 719468 in
  let era := z / 146097 in
  let doe := z - era * 146097 in
  let yoe := (doe - doe / 1460 + doe / 36524 - doe / 146096) / 365 in
  let y := yoe + era * 400 in
  let doy := doe - (365 * yoe + yoe / 4 - yoe / 100) in
  let mp := (5 * doy + 2) / 153 in
  let d := doy - (153 * mp + 2) / 5 + 1 in
  let m := if mp <? 10 then mp + 3 else mp - 9 in
  (if m <=? 2 then y + 1 else y, m, d).

Definition YearFromTime (t : Z) : Z := (civil_from_days (Day t)).1.1.

(** [MonthFromTime] numbers the months from 0 (January). *)
Definition MonthFromTime (t : Z) : Z := (civil_from_days (Day t)).1.2 - 1.

Definition DateFromTime (t : Z) : Z := (civil_from_days (Day t)).2.

Section LocalTime.

(** The offset of local time from UTC, in milliseconds, at a UTC time value
    (it depends on the time zone of the host and, with daylight saving, on
    the time). *)
Variable LocalTZA : Z → Z.

Definition LocalTime (t : Z) : Z := t + LocalTZA t.

Definition getFullYear (d : option Z) : option Z :=
  (λ t, YearFromTime (LocalTime t)) <$> d.

Definition getMonth (d : option Z) : option Z :=
  (λ t, MonthFromTime (LocalTime t)) <$> d.

Definition getDate (d : option Z) : option Z :=
  (λ t, DateFromTime (LocalTime t)) <$> d.

End LocalTime.

End Date.

(** ** Helpers (lines 57-64) *)

(** [a <= b] where [a] may be [NaN]: every comparison with [NaN] is false. *)
Definition num_le (a : option Z) (b : Z) : bool :=
  match a with
  | Some x => x <=? b
  | None => false
  end.

(** [a + b] where [a] may be [NaN]. *)
Definition num_add (a : option Z) (b : Z) : option Z := (λ x, x + b) <$> a.

Section Period.

Variable LocalTZA : Z → Z.

Definition getPeriodKey (ts : Z) : string :=
  let d := Date.TimeClip ts in
  let year := Date.getFullYear LocalTZA d in
  let month := num_add (Date.getMonth LocalTZA d) 1 in
  let day := Date.getDate LocalTZA d in
  let part := if num_le day 15 then "上半月" else "下半月" in
  interpolate year +:+ "年" +:+ interpolate month +:+ "月" +:+ part.

End Period.

(** ** [Array.prototype.sort] and [Math.random]

    The engine's sort is modelled by the insertion sort engines use on short
    arrays: each element is moved left past the elements the comparator puts
    after it. The comparator may have an effect (it reads the random number
    generator), so the state [S] is threaded through every call. With a
    consistent comparator every stable sort computes the same array. *)

(** The test [order > 0] on the number a comparator returns. *)
Class Positive (N : Type) := is_positive : N → bool.
Global Instance Positive_Z : Positive Z := λ n, 0 <? n.
Global Instance Positive_Q : Positive Q :=
  λ q, match (0 ?= q)%Q with Lt => true | _ => false end.

Section ArraySort.

Context {A S N : Type} `{!Positive N}.
Variable comparefn : A → A → S → N * S.

(** [element] enters the sorted prefix, given last element first. *)
Fixpoint sort_insert (element : A) (sorted_rev : list A) (s : S) : list A * S :=
  match sorted_rev with
  | [] => ([element], s)
  | tmp :: rest =>
      let '(order, s1) := comparefn tmp element s in
      if is_positive order then
        let '(r, s2) := sort_insert element rest s1 in (tmp :: r, s2)
      else (element :: sorted_rev, s1)
  end.

Fixpoint sort_from (todo sorted_rev : list A) (s : S) : list A * S :=
  match todo with
  | [] => (rev sorted_rev, s)
  | element :: todo' =>
      let '(sorted_rev', s1) := sort_insert element sorted_rev s in
      sort_from todo' sorted_rev' s1
  end.

Definition Array_sort (arr : list A) (s : S) : list A * S := sort_from arr [] s.

End ArraySort.

(** The random number generator: the numbers the next calls of
    [Math.random()] return. *)
Definition Rng : Type := nat → Q.

Definition Math_random (g : Rng) : Q * Rng := (g 0%nat, λ n, g (S n)).

(** ** Application state *)

Inductive Tab := tab_dashboard | tab_add | tab_review.
Inductive Mode := mode_list | mode_exam.
Inductive FilterMode := filter_all | filter_priority.

Global Instance Tab_eq_dec : EqDecision Tab.
Proof. solve_decision. Defined.
Global Instance Mode_eq_dec : EqDecision Mode.
Proof. solve_decision. Defined.
Global Instance FilterMode_eq_dec : EqDecision FilterMode.
Proof. solve_decision. Defined.

(** The state hooks of [ReviewMode] (lines 533-538). *)
Record ReviewState := mkReview {
  mode : Mode;
  examQuestions : list Question;
  currentExamIndex : Z;
  showAnswer : bool;
  examTitle : string;
  filterMode : FilterMode
}.

Definition ReviewState_initial : ReviewState :=
  {| mode := mode_list; examQuestions := []; currentExamIndex := 0;
     showAnswer := false; examTitle := "错题组卷"; filterMode := filter_all |}.

(** The state hooks of [App] (lines 873-874), the state of the mounted
    [ReviewMode], the storage of the browser and the messages shown with
    [alert] (oldest first). *)
Record World := mkWorld {
  activeTab : Tab;
  questions : list Question;
  review : ReviewState;
  localStorage : Storage;
  alerts : list string
}.

Definition set_review (r : ReviewState) (w : World) : World :=
  {| activeTab := activeTab w; questions := questions w; review := r;
     localStorage := localStorage w; alerts := alerts w |}.

Definition alert (msg : string) (w : World) : World :=
  {| activeTab := activeTab w; questions := questions w; review := review w;
     localStorage := localStorage w; alerts := alerts w ++ [msg] |}.

Definition setQuestions (qs : list Question) (w : World) : World :=
  {| activeTab := activeTab w; questions := qs; review := review w;
     localStorage := localStorage w; alerts := alerts w |}.

Definition persist (qs : list Question) (w : World) : World :=
  {| activeTab := activeTab w; questions := questions w; review := review w;
     localStorage := saveQuestions qs (localStorage w); alerts := alerts w |}.

(** [setActiveTab]: [ReviewMode] only exists while its tab is shown, so
    entering the tab mounts it with its initial state. *)
Definition setActiveTab (t : Tab) (w : World) : World :=
  {| activeTab := t; questions := questions w;
     review := if bool_decide (t = tab_review ∧ activeTab w ≠ tab_review)
               then ReviewState_initial else review w;
     localStorage := localStorage w; alerts := alerts w |}.

(** ** [App] (lines 880-891) *)

Definition handleSaveQuestion (q : Question) (w : World) : World :=
  let updated := q :: questions w in
  setActiveTab tab_review (persist updated (setQuestions updated w)).

Definition handleUpdateQuestion (q : Question) (w : World) : World :=
  let updated :=
    map (λ item, if String.eqb (id item) (id q) then q else item) (questions w) in
  persist updated (setQuestions updated w).

(** The array [updated] of [handleUpdateQuestion]. *)
Definition updated_by (q : Question) (qs : list Question) : list Question :=
  map (λ item, if String.eqb (id item) (id q) then q else item) qs.

(** ** [AddQuestion] (lines 145-160, 319-338) *)

Module AddQuestion.

(** The state hooks of the form that [handleSave] reads. *)
Record Form := mkForm {
  image : option string;
  subject : Subject;
  category : QuestionCategory;
  subCategory : string;
  aiAnalysis : string;
  myThinking : string;
  correctResolution : string;
  rootCause : string;
  tempMastery : MasteryStatus
}.

(** [handleSave] builds the question; [Date.now()] is read twice, first for
    the id ([now_id]) and then for [createdAt] ([now_created]). Without an
    image nothing is saved ([None]). *)
Definition handleSave (f : Form) (now_id now_created : Z) : option Question :=
  match image f with
  | Some img =>
      if truthy (image f) then
        Some (mkQuestion
                (Number_toString now_id)      (* id *)
                img                           (* imageUrl *)
                (subject f)
                (category f)
                (subCategory f)
                "Image Question"              (* questionText *)
                (aiAnalysis f)
                (myThinking f)
                (correctResolution f)
                (Some (rootCause f))
                (Some (tempMastery f))        (* masteryStatus *)
                now_created                   (* createdAt *)
                0                             (* reviewCount *)
                None)                         (* lastReviewedAt *)
      else None
  | None => None
  end.

(** The save button: [handleSave] followed by [onSave], which is
    [handleSaveQuestion]. *)
Definition save (f : Form) (now_id now_created : Z) (w : World) : World :=
  match handleSave f now_id now_created with
  | Some newQ => handleSaveQuestion newQ w
  | None => w
  end.

End AddQuestion.

(** ** [ReviewMode] (lines 532-624, 630, 649-726) *)

(** [q.masteryStatus === 'review_needed']. *)
Definition is_review_needed (q : Question) : Prop :=
  masteryStatus q = Some review_needed.

Global Instance is_review_needed_dec q : Decision (is_review_needed q).
Proof. unfold is_review_needed. apply _. Defined.

(** The comparator [() => 0.5 - Math.random()]. *)
Definition random_comparefn (a b : Question) (g : Rng) : Q * Rng :=
  let '(x, g') := Math_random g in ((1 # 2) - x, g')%Q.

(** [[...pool].sort(() => 0.5 - Math.random())]. *)
Definition shuffle (pool : list Question) (g : Rng) : list Question * Rng :=
  Array_sort random_comparefn pool g.

Definition startRandomExam (g : Rng) (w : World) : World * Rng :=
  let r := review w in
  let pool :=
    if bool_decide (filterMode r = filter_priority)
    then filter is_review_needed (questions w)
    else questions w in
  if array_length pool =? 0 then (alert "当前列表没有题目可考！" w, g)
  else
    let '(shuffled, g') := shuffle pool g in
    (set_review
       {| examQuestions := shuffled;
          currentExamIndex := 0;
          showAnswer := false;
          examTitle := if bool_decide (filterMode r = filter_priority)
                       then "重点题目突击" else "随机巩固练习";
          mode := mode_exam;
          filterMode := filterMode r |} w, g').

Definition startPeriodExam (periodKey : string) (periodQuestions : list Question)
    (g : Rng) (w : World) : World * Rng :=
  let r := review w in
  let '(shuffled, g') := shuffle periodQuestions g in
  (set_review
     {| examQuestions := shuffled;
        currentExamIndex := 0;
        showAnswer := false;
        examTitle := periodKey +:+ " 模拟考试";
        mode := mode_exam;
        filterMode := filterMode r |} w, g').

(** [{ ...q, masteryStatus: status }]. *)
Definition with_masteryStatus (q : Question) (status : MasteryStatus) : Question :=
  {| id := id q; imageUrl := imageUrl q; subject := subject q;
     category := category q; subCategory := subCategory q;
     questionText := questionText q; aiAnalysis := aiAnalysis q;
     myThinking := myThinking q; correctResolution := correctResolution q;
     rootCause := rootCause q;
     masteryStatus := Some status;
     createdAt := createdAt q; reviewCount := reviewCount q;
     lastReviewedAt := lastReviewedAt q |}.

Definition setExamQuestions (qs : list Question) (w : World) : World :=
  let r := review w in
  set_review
    {| mode := mode r; examQuestions := qs;
       currentExamIndex := currentExamIndex r; showAnswer := showAnswer r;
       examTitle := examTitle r; filterMode := filterMode r |} w.

Definition setCurrentExamIndex (i : Z) (w : World) : World :=
  let r := review w in
  set_review
    {| mode := mode r; examQuestions := examQuestions r;
       currentExamIndex := i; showAnswer := showAnswer r;
       examTitle := examTitle r; filterMode := filterMode r |} w.

Definition setShowAnswer (b : bool) (w : World) : World :=
  let r := review w in
  set_review
    {| mode := mode r; examQuestions := examQuestions r;
       currentExamIndex := currentExamIndex r; showAnswer := b;
       examTitle := examTitle r; filterMode := filterMode r |} w.

Definition setMode (m : Mode) (w : World) : World :=
  let r := review w in
  set_review
    {| mode := m; examQuestions := examQuestions r;
       currentExamIndex := currentExamIndex r; showAnswer := showAnswer r;
       examTitle := examTitle r; filterMode := filterMode r |} w.

Definition setFilterMode (f : FilterMode) (w : World) : World :=
  let r := review w in
  set_review
    {| mode := mode r; examQuestions := examQuestions r;
       currentExamIndex := currentExamIndex r; showAnswer := showAnswer r;
       examTitle := examTitle r; filterMode := f |} w.

(** Is [i] an index of [arr]? *)
Definition in_bounds {A} (arr : list A) (i : Z) : bool :=
  (0 <=? i) && (i <? array_length arr).

(** [handleUpdateMastery]. The buttons that call it belong to the exam view
    of the current question, so the index being written is inside the pool;
    a write outside (which would leave holes in the array) is [None]. *)
Definition handleUpdateMastery (q : Question) (status : MasteryStatus) (w : World)
  : option World :=
  let updatedQ := with_masteryStatus q status in
  let i := currentExamIndex (review w) in
  if in_bounds (examQuestions (review w)) i then
    let newExamQs := array_set (examQuestions (review w)) i updatedQ in
    Some (handleUpdateQuestion updatedQ (setExamQuestions newExamQs w))
  else None.

(** [currentQ.reviewCount || 0]: the operand itself unless it is falsy. *)
Definition or_zero (n : Z) : Z := if n =? 0 then 0 else n.

(** [{ ...currentQ, reviewCount: (currentQ.reviewCount || 0) + 1,
       lastReviewedAt: Date.now() }]. *)
Definition with_review_pass (currentQ : Question) (now : Z) : Question :=
  {| id := id currentQ; imageUrl := imageUrl currentQ; subject := subject currentQ;
     category := category currentQ; subCategory := subCategory currentQ;
     questionText := questionText currentQ; aiAnalysis := aiAnalysis currentQ;
     myThinking := myThinking currentQ;
     correctResolution := correctResolution currentQ;
     rootCause := rootCause currentQ;
     masteryStatus := masteryStatus currentQ;
     createdAt := createdAt currentQ;
     reviewCount := or_zero (reviewCount currentQ) + 1;
     lastReviewedAt := Some now |}.

(** [handleNext]; [now] is the value of [Date.now()]. Reading a property of
    [undefined] (no question at the current index) throws. *)
Definition handleNext (now : Z) (w : World) : completion World :=
  let r := review w in
  match array_get (examQuestions r) (currentExamIndex r) with
  | None => Throw TypeError
  | Some currentQ =>
      let updatedQ := with_review_pass currentQ now in
      let w1 := handleUpdateQuestion updatedQ w in
      let newExamQs := array_set (examQuestions r) (currentExamIndex r) updatedQ in
      let w2 := setExamQuestions newExamQs w1 in
      if currentExamIndex r <? array_length (examQuestions r) - 1 then
        Return (setShowAnswer false (setCurrentExamIndex (currentExamIndex r + 1) w2))
      else
        Return (setMode mode_list (alert "本轮考试结束！" w2))
  end.

(** The exam view is rendered when [mode === 'exam' && examQuestions.length > 0]
    (line 630); its buttons exist only then. *)
Definition exam_view (w : World) : bool :=
  bool_decide (mode (review w) = mode_exam)
  && (0 <? array_length (examQuestions (review w))).

(** The button that reveals the answer (lines 651-656). *)
Definition reveal_onClick (w : World) : World := setShowAnswer true w.

(** The previous button (lines 710-719): its [disabled] attribute and its
    [onClick] handler. *)
Definition previous_disabled (w : World) : bool :=
  currentExamIndex (review w) =? 0.

Definition previous_onClick (w : World) : World :=
  setShowAnswer false
    (setCurrentExamIndex (Z.max 0 (currentExamIndex (review w) - 1)) w).

(** A click on the previous button: a disabled button dispatches no click. *)
Definition previous_click (w : World) : World :=
  if exam_view w && negb (previous_disabled w) then previous_onClick w else w.

(** *** Period groups and their order (lines 604-624) *)

(** [periodGroups] is an object used as a map; [Object.keys] lists its keys
    in the order they were first added, so it is an association list. *)
Fixpoint push_group (key : string) (q : Question)
    (groups : list (string * list Question)) : list (string * list Question) :=
  match groups with
  | [] => [(key, [q])]
  | (k, qs) :: rest =>
      if String.eqb k key then (k, qs ++ [q]) :: rest
      else (k, qs) :: push_group key q rest
  end.

Section Groups.

Variable LocalTZA : Z → Z.

Definition periodGroups (questions : list Question)
  : list (string * list Question) :=
  fold_left (λ groups q, push_group (getPeriodKey LocalTZA (createdAt q)) q groups)
    questions [].

End Groups.

(** The regular expression [/(\d+)年(\d+)月(.+)/] of [parse]. *)

(** The longest prefix of decimal digits, and what follows it. *)
Fixpoint span_digits (s : string) : string * string :=
  match s with
  | String c s' =>
      if JSON.is_digit c then
        let '(d, r) := span_digits s' in (String c d, r)
      else (EmptyString, s)
  | EmptyString => (EmptyString, EmptyString)
  end.

Fixpoint strip_prefix (p s : string) : option string :=
  match p, s with
  | EmptyString, _ => Some s
  | String a p', String b s' => if Ascii.eqb a b then strip_prefix p' s' else None
  | String _ _, EmptyString => None
  end.

(** Does a line terminator (LF, CR, U+2028, U+2029) start here? *)
Definition line_terminator_here (s : string) : bool :=
  match s with
  | String "010" _ | String "013" _ => true
  | String "226" (String "128" (String "168" _))
  | String "226" (String "128" (String "169" _)) => true
  | _ => false
  end.

(** What [.+] takes when nothing follows it: the characters up to the first
    line terminator. *)
Fixpoint take_line (s : string) : string :=
  if line_terminator_here s then EmptyString
  else match s with
       | String c s' => String c (take_line s')
       | EmptyString => EmptyString
       end.

(** A match that starts at the first character: the three captures. The
    digit groups are greedy, and giving back digits never helps because a
    non-digit has to follow each of them. *)
Definition match_here (s : string) : option (string * string * string) :=
  let '(y, r1) := span_digits s in
  if String.eqb y "" then None else
  match strip_prefix "年" r1 with
  | None => None
  | Some r2 =>
      let '(m, r3) := span_digits r2 in
      if String.eqb m "" then None else
      match strip_prefix "月" r3 with
      | None => None
      | Some r4 =>
          let p := take_line r4 in
          if String.eqb p "" then None else Some (y, m, p)
      end
  end.

(** [k.match(...)]: the leftmost match. *)
Fixpoint regex_match (k : string) : option (string * string * string) :=
  match match_here k with
  | Some parts => Some parts
  | None =>
      match k with
      | String _ k' => regex_match k'
      | EmptyString => None
      end
  end.

(** [parseInt] of a non-empty string of decimal digits. *)
Definition parseInt (digits : string) : Z :=
  match NilEmpty.uint_of_string digits with
  | Some u => Z.of_N (N.of_uint u)
  | None => 0
  end.

(** The local function [parse] of the comparator. *)
Definition parse (k : string) : Z :=
  match regex_match k with
  | None => 0
  | Some (y_text, m_text, p_text) =>
      let y := parseInt y_text in
      let m := parseInt m_text in
      let p := if String.eqb p_text "上半月" then 0 else 1 in
      y * 1000 + m * 10 + p
  end.

(** The comparator [(a, b) => parse(b) - parse(a)]. *)
Definition period_comparefn (a b : string) (s : unit) : Z * unit :=
  (parse b - parse a, s).

(** [Object.keys(periodGroups).sort(...)]. *)
Definition periods (periodGroups : list (string * list Question)) : list string :=
  (Array_sort period_comparefn (map fst periodGroups) tt).1.

(** A period card (lines 754-778): the start button of [period] calls
    [startPeriodExam(period, periodGroups[period])]. The cards are part of
    the list view in filter mode [all], one for each element of [periods]. *)
Fixpoint group_of (key : string) (groups : list (string * list Question))
  : option (list Question) :=
  match groups with
  | [] => None
  | (k, qs) :: rest => if String.eqb k key then Some qs else group_of key rest
  end.

(** The value a group has for the questions that carry its key: there is
    no group without a question. *)
Definition group_value (qs : list Question) : option (list Question) :=
  match qs with [] => None | _ => Some qs end.

Section PeriodCard.

Variable LocalTZA : Z → Z.

Definition period_click (period : string) (g : Rng) (w : World) : World * Rng :=
  let groups := periodGroups LocalTZA (questions w) in
  match group_of period groups with
  | Some periodQuestions =>
      if negb (exam_view w) && bool_decide (filterMode (review w) = filter_all)
      then startPeriodExam period periodQuestions g w
      else (w, g)
  | None => (w, g)
  end.

End PeriodCard.

(** ** User events

    The controls the rendered views offer, each with the condition under
    which the JSX renders and enables it. An event on a control that is
    not there leaves the state as it is. *)

Inductive Event :=
| ClickTab (t : Tab)                      (* TabNav, lines 75-88 *)
| ClickSave (f : AddQuestion.Form) (now_id now_created : Z)
| ClickRandomExam                         (* lines 736-743 *)
| ClickPeriodExam (period : string)       (* lines 769-774 *)
| ClickFilter (f : FilterMode)            (* lines 785-801 *)
| ClickExit                               (* line 635 *)
| ClickReveal                             (* lines 651-656 *)
| ClickMastery (status : MasteryStatus)   (* lines 677-696 *)
| ClickPrevious                           (* lines 710-719 *)
| ClickNext (now : Z).                    (* lines 721-726 *)

(** Truthiness of an optional string property. *)
Definition truthy_text (s : option string) : bool := truthy s.

(** Rendering the exam view reads [q.category] of the current question
    (line 640), which throws when there is no question at the index. *)
Definition render (w : World) : completion unit :=
  if bool_decide (activeTab w = tab_review) && exam_view w then
    match array_get (examQuestions (review w)) (currentExamIndex (review w)) with
    | Some _ => Return tt
    | None => Throw TypeError
    end
  else Return tt.

Section Dispatch.

Variable LocalTZA : Z → Z.

(** The handler of an event. *)
Definition handle (e : Event) (w : World) (g : Rng) : completion (World * Rng) :=
  let on_review := bool_decide (activeTab w = tab_review) in
  let list_view := on_review && negb (exam_view w) in
  let exam := on_review && exam_view w in
  match e with
  | ClickTab t => Return (setActiveTab t w, g)
  | ClickSave f now_id now_created =>
      if bool_decide (activeTab w = tab_add)
      then Return (AddQuestion.save f now_id now_created w, g)
      else Return (w, g)
  | ClickRandomExam =>
      if list_view then Return (startRandomExam g w) else Return (w, g)
  | ClickPeriodExam period =>
      if list_view then Return (period_click LocalTZA period g w) else Return (w, g)
  | ClickFilter f =>
      if list_view then Return (setFilterMode f w, g) else Return (w, g)
  | ClickExit =>
      if exam then Return (setMode mode_list w, g) else Return (w, g)
  | ClickReveal =>
      if exam && negb (showAnswer (review w))
      then Return (reveal_onClick w, g) else Return (w, g)
  | ClickMastery status =>
      match array_get (examQuestions (review w)) (currentExamIndex (review w)) with
      | Some q =>
          if exam && showAnswer (review w) && truthy_text (rootCause q)
             && negb (bool_decide (status = status_null))
          then match handleUpdateMastery q status w with
               | Some w' => Return (w', g)
               | None => Return (w, g)
               end
          else Return (w, g)
      | None => Return (w, g)
      end
  | ClickPrevious =>
      if on_review then Return (previous_click w, g) else Return (w, g)
  | ClickNext now =>
      if exam then
        match handleNext now w with
        | Return w' => Return (w', g)
        | Throw err => Throw err
        end
      else Return (w, g)
  end.

(** An event: its handler runs, then the new state is rendered. *)
Definition dispatch (e : Event) (w : World) (g : Rng) : completion (World * Rng) :=
  match handle e w g with
  | Return (w', g') =>
      match render w' with
      | Return _ => Return (w', g')
      | Throw err => Throw err
      end
  | Throw err => Throw err
  end.

(** A sequence of events, oldest first; a throw ends it. *)
Fixpoint dispatch_all (es : list Event) (w : World) (g : Rng)
  : completion (World * Rng) :=
  match es with
  | [] => Return (w, g)
  | e :: es' =>
      match dispatch e w g with
      | Return (w', g') => dispatch_all es' w' g'
      | Throw err => Throw err
      end
  end.

End Dispatch.

(** The app after mounting with a loaded collection: dashboard tab, no
    exam. *)
Definition World_initial (qs : list Question) (store : Storage) : World :=
  {| activeTab := tab_dashboard; questions := qs; review := ReviewState_initial;
     localStorage := store; alerts := [] |}.

(** While an exam is running the current index is an index of the pool. *)
Definition index_in_pool (w : World) : Prop :=
  mode (review w) = mode_exam →
  in_bounds (examQuestions (review w)) (currentExamIndex (review w)) = true.

(** The key of the period with the given fields: the template of
    [getPeriodKey] for a valid date. *)
Definition period_key (year month : Z) (first_half : bool) : string :=
  Number_toString year +:+ "年" +:+ Number_toString month +:+ "月"
  +:+ (if first_half then "上半月" else "下半月").

(** The digit [parse] gives to the half of the month. *)
Definition half_value (first_half : bool) : Z := if first_half then 0 else 1.

(** The fields [getPeriodKey] derives from a timestamp: year, month
    (1..12) and whether the day of the month is at most 15; year and month
    are [None] ([NaN]) for an invalid date. *)
Section PeriodFields.

Variable LocalTZA : Z → Z.

Definition period_year (ts : Z) : option Z :=
  Date.getFullYear LocalTZA (Date.TimeClip ts).

Definition period_month (ts : Z) : option Z :=
  num_add (Date.getMonth LocalTZA (Date.TimeClip ts)) 1.

Definition period_first_half (ts : Z) : bool :=
  num_le (Date.getDate LocalTZA (Date.TimeClip ts)) 15.

End PeriodFields.

(** Do all characters of a string satisfy a test? *)
Fixpoint string_all (P : ascii → bool) (s : string) : bool :=
  match s with
  | EmptyString => true
  | String c s' => P c && string_all P s'
  end.

(** The characters of the ASCII range (one byte in UTF-8). *)
Definition is_ascii (c : ascii) : bool := (nat_of_ascii c <? 128)%nat.

(** ** The session of the specification

    The exam walkthrough seen as the state machine [Active(i, revealed)] /
    [Finished]: a session is active while [mode] is ['exam']; leaving the
    exam mode ends it. *)

Inductive Session :=
| Active (index : Z) (revealed : bool)
| Finished.

Definition session (w : World) : Session :=
  match mode (review w) with
  | mode_exam => Active (currentExamIndex (review w)) (showAnswer (review w))
  | mode_list => Finished
  end.

(** Two records that agree on every field but [masteryStatus]. *)
Definition same_but_mastery (q q' : Question) : Prop :=
  id q' = id q ∧ subject q' = subject q ∧ category q' = category q ∧
  subCategory q' = subCategory q ∧ questionText q' = questionText q ∧
  aiAnalysis q' = aiAnalysis q ∧ myThinking q' = myThinking q ∧
  correctResolution q' = correctResolution q ∧ rootCause q' = rootCause q ∧
  createdAt q' = createdAt q ∧ reviewCount q' = reviewCount q ∧
  lastReviewedAt q' = lastReviewedAt q ∧ imageUrl q' = imageUrl q.

(** Two records that agree on every field but the review statistics. *)
Definition same_but_review_stats (q q' : Question) : Prop :=
  id q' = id q ∧ subject q' = subject q ∧ category q' = category q ∧
  subCategory q' = subCategory q ∧ questionText q' = questionText q ∧
  aiAnalysis q' = aiAnalysis q ∧ myThinking q' = myThinking q ∧
  correctResolution q' = correctResolution q ∧ rootCause q' = rootCause q ∧
  masteryStatus q' = masteryStatus q ∧ createdAt q' = createdAt q ∧
  imageUrl q' = imageUrl q.

(** A sequence of uses of the save button, each with its form and its two
    clock readings, oldest first. *)
Definition Creation : Type := AddQuestion.Form * Z * Z.

Definition run_saves (ops : list Creation) (w : World) : World :=
  fold_left (λ w '(f, now_id, now_created), AddQuestion.save f now_id now_created w)
    ops w.

(** The clock readings that became ids: those of the creations that had an
    image. *)
Definition id_readings (ops : list Creation) : list Z :=
  omap (λ '(f, now_id, _), if truthy (AddQuestion.image f) then Some now_id else None)
    ops.

(** ** Sample data *)

Module Samples.

Definition question (i : string) (m : option MasteryStatus) (t : Z) : Question :=
  mkQuestion i "data:image/png;base64,iVBORw0KGgo=" zhice cat_shuliang "工程问题"
    "Image Question" "" "" "" (Some "") m t 0 None.

Definition qa : Question := question "1700000000000" (Some review_needed) 1700000000000.
Definition qb : Question := question "1700000360000" (Some mastered) 1700000360000.
Definition qc : Question := question "1710518400000" None 1710518400000.
Definition qd : Question := question "1710518460000" (Some review_needed) 1710518460000.

Definition store : list Question := [qd; qc; qb; qa].

(** The list view over [store]. *)
Definition w_list : World := mkWorld tab_review store ReviewState_initial ∅ [].

(** An exam over the pool [[qb; qd; qa]] at position [i]. *)
Definition w_exam (i : Z) (revealed : bool) : World :=
  mkWorld tab_review store
    (mkReview mode_exam [qb; qd; qa] i revealed "随机巩固练习" filter_all) ∅ [].

Definition form (img : string) : AddQuestion.Form :=
  AddQuestion.mkForm (Some img) zhice cat_yanyu "" "" "" "" "" status_null.

Definition w_empty : World := mkWorld tab_add [] ReviewState_initial ∅ [].

(** China Standard Time: eight hours ahead of UTC all year. *)
Definition CST : Z → Z := λ _, 28800000.

Definition rng : Rng :=
  λ n, match n with
       | 0%nat => 7 # 10 | 1%nat => 1 # 5 | 2%nat => 9 # 10 | 3%nat => 1 # 10
       | _ => 3 # 5
       end.

End Samples.

(** ** [Dashboard] (lines 93-101) *)

Module Dashboard.

Definition total (questions : list Question) : Z := array_length questions.

Definition priorityCount (questions : list Question) : Z :=
  array_length (filter is_review_needed questions).

(** [catStats[c] = (catStats[c] || 0) + 1] on the object [catStats], whose
    entries are listed in the order the categories were first counted. *)
Fixpoint bump (c : QuestionCategory) (stats : list (QuestionCategory * Z))
  : list (QuestionCategory * Z) :=
  match stats with
  | [] => [(c, 0 + 1)]
  | (k, n) :: rest =>
      if bool_decide (k = c) then (k, or_zero n + 1) :: rest
      else (k, n) :: bump c rest
  end.

Definition catStats (questions : list Question) : list (QuestionCategory * Z) :=
  fold_left (λ stats q, bump (category q) stats) questions [].

(** [catStats[c]], [None] for a category that was never counted. *)
Fixpoint stat_of (c : QuestionCategory) (stats : list (QuestionCategory * Z))
  : option Z :=
  match stats with
  | [] => None
  | (k, n) :: rest => if bool_decide (k = c) then Some n else stat_of c rest
  end.

End Dashboard.

(** The number of elements of a list that satisfy a test, and the sum of
    a measure over a list. *)
Definition count_of {A} (P : A → Prop) `{!∀ x, Decision (P x)} (l : list A) : Z :=
  array_length (filter P l).

Definition sum_of {A} (f : A → Z) (l : list A) : Z :=
  foldr (λ x acc, f x + acc) 0 l.

(** The entry [catStats] has for a category with [n] questions: none
    before the first is counted. *)
Definition stat_value (n : Z) : option Z := if n =? 0 then None else Some n.

(** ** The classification selects of [AddQuestion] (lines 395-412) *)

Module FormEdit.

Import AddQuestion.

Definition setSubject (s : Subject) (f : Form) : Form :=
  mkForm (image f) s (category f) (subCategory f) (aiAnalysis f)
    (myThinking f) (correctResolution f) (rootCause f) (tempMastery f).

Definition setCategory (c : QuestionCategory) (f : Form) : Form :=
  mkForm (image f) (subject f) c (subCategory f) (aiAnalysis f)
    (myThinking f) (correctResolution f) (rootCause f) (tempMastery f).

(** The subject select: [setSubject(v); setCategory(CATEGORIES[v][0])]. Both
    lists of [CATEGORIES] have a first element. *)
Definition subject_onChange (s : Subject) (f : Form) : Form :=
  match CATEGORIES s with
  | c :: _ => setCategory c (setSubject s f)
  | [] => setSubject s f
  end.

(** The category select offers the options [CATEGORIES[subject]] and
    nothing else. *)
Definition category_onChange (c : QuestionCategory) (f : Form) : Form :=
  if bool_decide (c ∈ CATEGORIES (subject f)) then setCategory c f else f.

Inductive Edit :=
| SelectSubject (s : Subject)
| SelectCategory (c : QuestionCategory).

Definition edit (e : Edit) (f : Form) : Form :=
  match e with
  | SelectSubject s => subject_onChange s f
  | SelectCategory c => category_onChange c f
  end.

Definition edits (es : list Edit) (f : Form) : Form := fold_left (λ f e, edit e f) es f.

(** The form as [useState] initialises it (lines 146-160), with the image
    the upload put there. *)
Definition initial (img : option string) : Form :=
  mkForm img zhice cat_yanyu "" "" "" "" "" status_null.

End FormEdit.

(** ** Consistency of the pool with the store *)

(** The ids of the store are pairwise different and, while an exam runs,
    so are those of the pool, whose records are records of the store. *)
Definition consistent (w : World) : Prop :=
  NoDup (map id (questions w)) ∧
  (mode (review w) = mode_exam →
   NoDup (map id (examQuestions (review w))) ∧
   ∀ q, q ∈ examQuestions (review w) → q ∈ questions w).

(** A save takes an id that no question of the store has. *)
Definition fresh_id (e : Event) (w : World) : Prop :=
  match e with
  | ClickSave f now_id _ =>
      truthy (AddQuestion.image f) = true →
      Number_toString now_id ∉ map id (questions w)
  | _ => True
  end.

(** All review passes recorded in the store. *)
Definition total_reviews (w : World) : Z := sum_of reviewCount (questions w).

(** Does the event record a review pass? Only the next button of a
    rendered exam does. *)
Definition records_review (e : Event) (w : World) : bool :=
  match e with
  | ClickNext _ => bool_decide (activeTab w = tab_review) && exam_view w
  | _ => false
  end.

(** ** The value [JSON.parse] returns for a saved collection *)

(** The properties [JSON.stringify] writes for a question: name, text of
    the value, and the value [JSON.parse] reads from that text (strings as
    they are spelled between the quotes). *)
Definition Question_members (q : Question) : list (string * string * JSON.json) :=
  let text (s : string) := (JSON.quote s, JSON.JString (JSON.quote_body s)) in
  let number (n : Z) := (Number_toString n, JSON.JNumber (Number_toString n)) in
  let entry (k : string) (tv : string * JSON.json) := (k, tv.1, tv.2) in
  [ entry "id" (text (id q));
    entry "imageUrl" (text (imageUrl q));
    entry "subject" (text (JSON.Subject_text (subject q)));
    entry "category" (text (JSON.QuestionCategory_text (category q)));
    entry "subCategory" (text (subCategory q));
    entry "questionText" (text (questionText q));
    entry "aiAnalysis" (text (aiAnalysis q));
    entry "myThinking" (text (myThinking q));
    entry "correctResolution" (text (correctResolution q)) ]
  ++ match rootCause q with
     | Some r => [ entry "rootCause" (text r) ]
     | None => []
     end
  ++ match masteryStatus q with
     | Some mastered => [ entry "masteryStatus" (text "mastered") ]
     | Some review_needed => [ entry "masteryStatus" (text "review_needed") ]
     | Some status_null => [ entry "masteryStatus" ("null", JSON.JNull) ]
     | None => []
     end
  ++ [ entry "createdAt" (number (createdAt q));
       entry "reviewCount" (number (reviewCount q));
       entry "lastReviewedAt"
         (match lastReviewedAt q with
          | Some t => number t
          | None => ("null", JSON.JNull)
          end) ].

Definition member_text (m : string * string * JSON.json) : string :=
  JSON.member m.1.1 m.1.2.

Definition member_json (m : string * string * JSON.json) : string * JSON.json :=
  (JSON.quote_body m.1.1, m.2).

(** The object read back for a question. *)
Definition Question_json (q : Question) : JSON.json :=
  JSON.JObject (map member_json (Question_members q)).

(** The characters that may follow a value inside a container. *)
Definition is_delim (c : ascii) : bool :=
  match c with
  | ","%char | "}"%char | "]"%char => true
  | _ => false
  end.

(** Where the automaton goes once the value [v] is complete below [stk],
    then continues on [text]. *)
Definition run_after (v : JSON.json) (stk : list JSON.frame) (text : string)
  : option JSON.state :=
  match JSON.complete v stk with
  | Some st => JSON.run st text
  | None => None
  end.

(** [text] is read as the value [v] wherever a value may start and a
    delimiter follows. *)
Definition parses_as (text : string) (v : JSON.json) : Prop :=
  ∀ stk c rest, is_delim c = true →
    JSON.run (JSON.PValue, stk) (text +:+ String c rest)
    = run_after v stk (String c rest).

(** ** Reading a saved value back

    What a string literal written by [JSON.quote] stands for, and the
    property access [obj[k]] on a parsed object; both are only used to
    compare saved texts. *)

Definition unhex (c : ascii) : nat :=
  match c with
  | "0" => 0 | "1" => 1 | "2" => 2 | "3" => 3 | "4" => 4 | "5" => 5
  | "6" => 6 | "7" => 7 | "8" => 8 | "9" => 9 | "a" => 10 | "b" => 11
  | "c" => 12 | "d" => 13 | "e" => 14 | _ => 15
  end%char%nat.

(** The character a two-character escape stands for. *)
Definition unescape_char (c : ascii) : ascii :=
  match c with
  | "b" => "008"
  | "f" => "012"
  | "n" => "010"
  | "r" => "013"
  | "t" => "009"
  | _ => c
  end%char.

(** The characters of a literal's body; of the [\u] escapes only the
    [\u00hh] ones occur in a text that [JSON.stringify] writes. *)
Fixpoint unquote_body (s : string) : string :=
  match s with
  | EmptyString => EmptyString
  | String c s1 =>
      if Ascii.eqb c "\" then
        match s1 with
        | String "u" (String _ (String _ (String h (String l s5)))) =>
            String (ascii_of_nat (16 * unhex h + unhex l)) (unquote_body s5)
        | String e s2 => String (unescape_char e) (unquote_body s2)
        | EmptyString => EmptyString
        end
      else String c (unquote_body s1)
  end.

(** [obj[k]] on the members of a parsed object, keys as they are spelled. *)
Fixpoint assoc (k : string) (members : list (string * JSON.json))
  : option JSON.json :=
  match members with
  | [] => None
  | (k', v) :: rest => if String.eqb k k' then Some v else assoc k rest
  end.
(** * Properties *)

(** ** Arrays *)

Section Arrays.

Context {A : Type}.
Implicit Types (arr : list A) (i j : Z).


Lemma in_bounds_array_get arr i :
  in_bounds arr i = true → is_Some (array_get arr i).
Proof.
  unfold array_get, in_bounds, array_length.
  intros [Hi Hlt]%andb_true_iff. rewrite Hi.
  apply lookup_lt_is_Some. lia.
Qed.

Lemma array_get_set_eq arr i v :
  in_bounds arr i = true → array_get (array_set arr i v) i = Some v.
Proof.
  unfold array_get, array_set, in_bounds, array_length.
  intros [Hi Hlt]%andb_true_iff. rewrite Hi.
  apply list_lookup_insert_eq. lia.
Qed.


Lemma array_set_length arr i v :
  array_length (array_set arr i v) = array_length arr.
Proof.
  unfold array_set, array_length.
  destruct (0 <=? i); [|done]. by rewrite length_insert.
Qed.

End Arrays.

(** ** The store update *)

Section Update.

Implicit Types (q item : Question) (qs : list Question) (w : World).

Lemma handleUpdateQuestion_questions q w :
  questions (handleUpdateQuestion q w) = updated_by q (questions w).
Proof. reflexivity. Qed.

Lemma handleUpdateQuestion_review q w :
  review (handleUpdateQuestion q w) = review w.
Proof. reflexivity. Qed.

Lemma handleUpdateQuestion_alerts q w :
  alerts (handleUpdateQuestion q w) = alerts w.
Proof. reflexivity. Qed.

Lemma updated_by_length q qs : length (updated_by q qs) = length qs.
Proof. apply length_map. Qed.

Lemma updated_by_lookup q qs k item :
  qs !! k = Some item →
  updated_by q qs !! k = Some (if String.eqb (id item) (id q) then q else item).
Proof. intros Hk. unfold updated_by. by rewrite list_lookup_fmap, Hk. Qed.

Lemma updated_by_lookup_ne q qs k item :
  qs !! k = Some item → id item ≠ id q → updated_by q qs !! k = Some item.
Proof.
  intros Hk Hne. rewrite (updated_by_lookup _ _ _ _ Hk).
  by apply String.eqb_neq in Hne as ->.
Qed.

Lemma updated_by_lookup_eq q qs k item :
  qs !! k = Some item → id item = id q → updated_by q qs !! k = Some q.
Proof.
  intros Hk Heq. rewrite (updated_by_lookup _ _ _ _ Hk).
  by apply String.eqb_eq in Heq as ->.
Qed.

Lemma updated_by_no_match q qs :
  (∀ item, item ∈ qs → id item ≠ id q) → updated_by q qs = qs.
Proof.
  induction qs as [|x qs IH]; intros Hno; [done|]. simpl.
  rewrite IH by (intros item Hin; apply Hno; by right).
  assert (id x ≠ id q) as Hx by (apply Hno; by left).
  by apply String.eqb_neq in Hx as ->.
Qed.

(** The ids stay where they are, whatever matches. *)
Lemma updated_by_ids q qs : map id (updated_by q qs) = map id qs.
Proof.
  induction qs as [|x qs IH]; [done|]. simpl. rewrite IH. f_equal.
  destruct (String.eqb (id x) (id q)) eqn:E; [|done].
  by apply String.eqb_eq in E.
Qed.

End Update.

(** C10. The store update keeps the length of the collection and the place
    of every record: a record whose id differs from [q.id] is left as it is,
    a record whose id is [q.id] becomes [q], the sequence of ids is the same
    before and after, and when no id matches the whole collection is
    returned unchanged, silently (nothing is reported). The resulting
    collection is what the storage holds afterwards. *)
Theorem handleUpdateQuestion_frame (q : Question) (w : World) :
  let w' := handleUpdateQuestion q w in
  length (questions w') = length (questions w) ∧
  map id (questions w') = map id (questions w) ∧
  (∀ k item, questions w !! k = Some item → id item ≠ id q →
             questions w' !! k = Some item) ∧
  (∀ k item, questions w !! k = Some item → id item = id q →
             questions w' !! k = Some q) ∧
  ((∀ item, item ∈ questions w → id item ≠ id q) →
   questions w' = questions w) ∧
  alerts w' = alerts w ∧
  localStorage w' !! STORAGE_KEY = Some (JSON.stringify (questions w')).
Proof.
  cbv zeta. rewrite handleUpdateQuestion_questions.
  split_and!.
  - apply updated_by_length.
  - apply updated_by_ids.
  - intros k item. apply updated_by_lookup_ne.
  - intros k item. apply updated_by_lookup_eq.
  - apply updated_by_no_match.
  - reflexivity.
  - apply lookup_insert_eq.
Qed.

(** An update with a question that is not in the store changes nothing. *)
Lemma handleUpdateQuestion_frame_witness :
  questions (handleUpdateQuestion (Samples.question "42" None 42) Samples.w_list)
  = questions Samples.w_list.
Proof.
  apply (handleUpdateQuestion_frame (Samples.question "42" None 42) Samples.w_list).
  intros item Hin. simpl in Hin.
  repeat (apply elem_of_cons in Hin as [-> | Hin]; [discriminate|]).
  by apply elem_of_nil in Hin.
Defined.

(** ** Mastery *)

(** C5. The record built for a mastery update has the given status and
    agrees with the original on every other field; this holds for each
    status, in particular for [mastered] and [review_needed]. *)
Theorem with_masteryStatus_frame (q : Question) (status : MasteryStatus) :
  masteryStatus (with_masteryStatus q status) = Some status ∧
  same_but_mastery q (with_masteryStatus q status).
Proof. unfold same_but_mastery. by split_and!. Qed.

(** [handleUpdateMastery] puts that record at the current position of the
    pool and hands it to the store update. *)
Lemma handleUpdateMastery_effect q status w :
  in_bounds (examQuestions (review w)) (currentExamIndex (review w)) = true →
  ∃ w', handleUpdateMastery q status w = Some w' ∧
    array_get (examQuestions (review w')) (currentExamIndex (review w))
      = Some (with_masteryStatus q status) ∧
    questions w' = updated_by (with_masteryStatus q status) (questions w) ∧
    session w' = session w.
Proof.
  intros Hb. unfold handleUpdateMastery. rewrite Hb.
  eexists; split; [reflexivity|]. split_and!; [|done..].
  simpl. by apply array_get_set_eq.
Qed.

(** ** The exam walkthrough *)

Section Walkthrough.

Implicit Types (w : World) (i : Z) (revealed : bool).




End Walkthrough.




(** The record [handleNext] builds: the review count is one more, the last
    review is now, every other field is the current question's. *)
Lemma with_review_pass_frame (currentQ : Question) (now : Z) :
  reviewCount (with_review_pass currentQ now) = reviewCount currentQ + 1 ∧
  lastReviewedAt (with_review_pass currentQ now) = Some now ∧
  same_but_review_stats currentQ (with_review_pass currentQ now).
Proof.
  unfold same_but_review_stats. split_and!; try done.
  simpl. unfold or_zero. destruct (reviewCount currentQ =? 0) eqn:E; [|done].
  apply Z.eqb_eq in E. by rewrite E.
Qed.




(** ** The sort *)

Section SortFacts.

Context {A S N : Type} `{!Positive N}.
Variable comparefn : A → A → S → N * S.

(** Whatever the comparator answers, the elements are only moved. *)
Lemma sort_insert_perm element sorted_rev s :
  (sort_insert comparefn element sorted_rev s).1 ≡ₚ element :: sorted_rev.
Proof.
  revert s. induction sorted_rev as [|tmp rest IH]; intros s; simpl; [done|].
  destruct (comparefn tmp element s) as [order s1].
  destruct (is_positive order); [|done].
  specialize (IH s1). destruct (sort_insert comparefn element rest s1) as [r s2].
  simpl in *. rewrite IH. apply perm_swap.
Qed.

Lemma sort_from_perm todo sorted_rev s :
  (sort_from comparefn todo sorted_rev s).1 ≡ₚ todo ++ sorted_rev.
Proof.
  revert sorted_rev s. induction todo as [|x todo IH]; intros sorted_rev s; simpl.
  - symmetry. apply Permutation_rev.
  - pose proof (sort_insert_perm x sorted_rev s) as Hins.
    destruct (sort_insert comparefn x sorted_rev s) as [sorted_rev' s1].
    simpl in Hins. rewrite IH, Hins. by rewrite Permutation_middle.
Qed.

Lemma Array_sort_perm arr s : (Array_sort comparefn arr s).1 ≡ₚ arr.
Proof. unfold Array_sort. by rewrite sort_from_perm, app_nil_r. Qed.

(** A comparator that orders by a key, larger keys first: [comparefn a b]
    is positive exactly when [b] has the larger key. *)
Variable key : A → Z.
Hypothesis comparefn_key :
  ∀ a b s, is_positive (comparefn a b s).1 = (key a <? key b).

Let ascending : relation A := λ x y, key x ≤ key y.
Let descending : relation A := λ x y, key y ≤ key x.

Lemma sort_insert_sorted element sorted_rev s :
  StronglySorted ascending sorted_rev →
  StronglySorted ascending (sort_insert comparefn element sorted_rev s).1.
Proof.
  revert s. induction sorted_rev as [|tmp rest IH]; intros s Hsorted; simpl.
  { repeat constructor. }
  apply StronglySorted_cons in Hsorted as [Hall Hrest].
  pose proof (comparefn_key tmp element s) as Hk.
  destruct (comparefn tmp element s) as [order s1]. simpl in Hk. rewrite Hk.
  destruct (key tmp <? key element) eqn:Hlt.
  - apply Z.ltb_lt in Hlt.
    pose proof (sort_insert_perm element rest s1) as Hperm.
    specialize (IH s1 Hrest).
    destruct (sort_insert comparefn element rest s1) as [r s2]. simpl in *.
    apply StronglySorted_cons. split; [|done].
    rewrite Hperm. constructor; [unfold ascending; lia|done].
  - apply Z.ltb_ge in Hlt.
    simpl. apply StronglySorted_cons. split.
    + constructor; [done|].
      eapply Forall_impl; [exact Hall|]. unfold ascending. simpl. lia.
    + by apply StronglySorted_cons.
Qed.

Lemma StronglySorted_rev_descending l :
  StronglySorted ascending l → StronglySorted descending (rev l).
Proof.
  induction 1 as [|x l Hl IH Hall]; simpl; [constructor|].
  apply StronglySorted_app. split_and!; [|done|repeat constructor].
  intros x1 x2 Hx1 ->%list_elem_of_singleton.
  rewrite Forall_forall in Hall. apply Hall.
  apply list_elem_of_In, in_rev, list_elem_of_In in Hx1. done.
Qed.

Lemma sort_from_sorted todo sorted_rev s :
  StronglySorted ascending sorted_rev →
  StronglySorted descending (sort_from comparefn todo sorted_rev s).1.
Proof.
  revert sorted_rev s. induction todo as [|x todo IH]; intros sorted_rev s Hs; simpl.
  - by apply StronglySorted_rev_descending.
  - pose proof (sort_insert_sorted x sorted_rev s Hs) as Hins.
    destruct (sort_insert comparefn x sorted_rev s) as [sorted_rev' s1].
    by apply IH.
Qed.

Lemma Array_sort_sorted arr s :
  StronglySorted (λ x y, key y ≤ key x) (Array_sort comparefn arr s).1.
Proof. apply sort_from_sorted. constructor. Qed.

End SortFacts.

(** ** Period groups *)

Section GroupFacts.

Implicit Types (key : string) (q : Question) (qs : list Question)
  (groups : list (string * list Question)).

Lemma group_of_push_group key key' q groups :
  group_of key' (push_group key q groups) =
    if String.eqb key key' then Some (default [] (group_of key groups) ++ [q])
    else group_of key' groups.
Proof.
  induction groups as [|[k ks] rest IH]; simpl.
  - rewrite String.eqb_sym. by destruct (String.eqb key' key).
  - destruct (String.eqb k key) eqn:Ek; simpl.
    + apply String.eqb_eq in Ek as ->.
      by destruct (String.eqb key key').
    + rewrite IH. destruct (String.eqb k key') eqn:Ek'; [|done].
      apply String.eqb_eq in Ek' as ->. by rewrite String.eqb_sym, Ek.
Qed.

Lemma group_of_is_Some key groups :
  is_Some (group_of key groups) ↔ key ∈ map fst groups.
Proof.
  induction groups as [|[k ks] rest IH]; simpl.
  - split; [by intros [? ?]|by intros ?%elem_of_nil].
  - rewrite elem_of_cons, <- IH. destruct (String.eqb k key) eqn:Ek.
    + apply String.eqb_eq in Ek as ->. split; [by left|by eexists].
    + apply String.eqb_neq in Ek. split; [by right|by intros [->|?]].
Qed.

Variable LocalTZA : Z → Z.

Let key_of q := getPeriodKey LocalTZA (createdAt q).

Lemma periodGroups_fold qs seen groups :
  (∀ key, group_of key groups = group_value (filter (λ q, key_of q = key) seen)) →
  ∀ key,
    group_of key
      (fold_left (λ groups q, push_group (key_of q) q groups) qs groups)
    = group_value (filter (λ q, key_of q = key) (seen ++ qs)).
Proof.
  revert seen groups. induction qs as [|q qs IH]; intros seen groups Hinv key; simpl.
  - by rewrite app_nil_r.
  - rewrite (IH (seen ++ [q])); [by rewrite <- app_assoc|].
    intros key'. rewrite group_of_push_group, filter_app, Hinv.
    rewrite filter_cons, filter_nil.
    destruct (String.eqb (key_of q) key') eqn:E.
    + apply String.eqb_eq in E. rewrite decide_True by done.
      rewrite <- E.
      destruct (filter (λ q0, key_of q0 = key_of q) seen); by simpl.
    + apply String.eqb_neq in E. rewrite decide_False by done.
      by rewrite app_nil_r.
Qed.

(** The group of a key holds the questions with that key, in the order of
    the collection; keys without a question have no group. *)
Lemma group_of_periodGroups qs key :
  group_of key (periodGroups LocalTZA qs)
  = group_value (filter (λ q, getPeriodKey LocalTZA (createdAt q) = key) qs).
Proof.
  unfold periodGroups.
  by rewrite (periodGroups_fold qs [] []).
Qed.

Lemma periods_perm groups : periods groups ≡ₚ map fst groups.
Proof. apply Array_sort_perm. Qed.

(** Every period that gets a card has at least one question. *)
Lemma listed_period_nonempty qs period :
  period ∈ periods (periodGroups LocalTZA qs) →
  filter (λ q, getPeriodKey LocalTZA (createdAt q) = period) qs ≠ [].
Proof.
  rewrite periods_perm. intros [group Hg]%group_of_is_Some.
  rewrite group_of_periodGroups in Hg.
  by destruct (filter _ qs).
Qed.

End GroupFacts.

(** ** Pool selection *)

Section Pool.

Implicit Types (g : Rng) (w : World) (pool : list Question).

Lemma shuffle_perm pool g : (shuffle pool g).1 ≡ₚ pool.
Proof. apply Array_sort_perm. Qed.

(** The pool [startRandomExam] filters out of the store. *)
Lemma startRandomExam_nonempty g w :
  let pool := if bool_decide (filterMode (review w) = filter_priority)
              then filter is_review_needed (questions w) else questions w in
  pool ≠ [] →
  session (startRandomExam g w).1 = Active 0 false ∧
  examQuestions (review (startRandomExam g w).1) = (shuffle pool g).1 ∧
  questions (startRandomExam g w).1 = questions w ∧
  alerts (startRandomExam g w).1 = alerts w.
Proof.
  cbv zeta. unfold startRandomExam. intros Hne.
  set (pool := if bool_decide _ then _ else _) in *.
  destruct (array_length pool =? 0) eqn:E.
  { apply Z.eqb_eq in E. unfold array_length in E. by destruct pool. }
  by destruct (shuffle pool g) as [shuffled g'].
Qed.

Lemma startRandomExam_empty g w :
  let pool := if bool_decide (filterMode (review w) = filter_priority)
              then filter is_review_needed (questions w) else questions w in
  pool = [] →
  startRandomExam g w = (alert "当前列表没有题目可考！" w, g).
Proof. cbv zeta. unfold startRandomExam. by intros ->. Qed.

End Pool.

(** C4. With the priority criterion the shuffled pool is a permutation of
    the questions of the collection whose mastery status is
    [review_needed]: it holds only such questions, its ids are the same
    multiset, and it is empty when there is none. When the filtered set is
    not empty this is the pool of the session that starts, and the
    collection itself is left as it was. *)
Theorem priority_pool_permutation (g : Rng) (w : World) :
  filterMode (review w) = filter_priority →
  let pool := filter is_review_needed (questions w) in
  let w' := (startRandomExam g w).1 in
  (shuffle pool g).1 ≡ₚ pool ∧
  Forall is_review_needed (shuffle pool g).1 ∧
  map id (shuffle pool g).1 ≡ₚ map id pool ∧
  (pool = [] → (shuffle pool g).1 = []) ∧
  (pool ≠ [] → session w' = Active 0 false ∧
               examQuestions (review w') = (shuffle pool g).1) ∧
  questions w' = questions w.
Proof.
  intros Hf. cbv zeta.
  pose proof (shuffle_perm (filter is_review_needed (questions w)) g) as Hperm.
  split_and!.
  - exact Hperm.
  - rewrite Hperm. by apply list.Forall_forall; intros q [? _]%list_elem_of_filter.
  - by rewrite Hperm.
  - intros Hnil. rewrite Hnil in Hperm |- *. by apply Permutation_nil_r.
  - intros Hne. pose proof (startRandomExam_nonempty g w) as Hstart.
    cbv zeta in Hstart. rewrite bool_decide_eq_true_2 in Hstart by done.
    destruct (Hstart Hne) as (? & ? & _). by split.
  - pose proof (startRandomExam_nonempty g w) as Hstart.
    pose proof (startRandomExam_empty g w) as Hempty.
    cbv zeta in Hstart, Hempty. rewrite bool_decide_eq_true_2 in Hstart, Hempty by done.
    destruct (filter is_review_needed (questions w)) as [|q pool'] eqn:Hpool.
    + by rewrite Hempty.
    + by destruct Hstart as (_ & _ & ? & _).
Qed.

(** A priority exam over the sample store: the pool is the two questions
    that need review. *)
Lemma priority_pool_permutation_witness :
  examQuestions
    (review (startRandomExam Samples.rng
               (setFilterMode filter_priority Samples.w_list)).1)
  ≡ₚ [Samples.qd; Samples.qa].
Proof.
  pose proof (priority_pool_permutation Samples.rng
                (setFilterMode filter_priority Samples.w_list) eq_refl)
    as (Hperm & _ & _ & _ & Hstart & _).
  destruct Hstart as [_ ->]; [discriminate|].
  exact Hperm.
Defined.

(** ** Numerals *)

Section Numerals.

Implicit Types (z : Z) (s r : string) (c : ascii).

Lemma Z_to_int_nonnil z : Z.to_int z ≠ Decimal.Pos Decimal.Nil ∧
                          Z.to_int z ≠ Decimal.Neg Decimal.Nil.
Proof.
  destruct z as [|p|p]; simpl; split; try discriminate;
    intros [= H]; by apply DecimalPos.Unsigned.to_uint_nonnil in H.
Qed.

Lemma Number_toString_parse z :
  NilZero.int_of_string (Number_toString z) = Some (Z.to_int z).
Proof. destruct (Z_to_int_nonnil z). by apply NilZero.isi. Qed.

Lemma Number_toString_inj z1 z2 :
  Number_toString z1 = Number_toString z2 → z1 = z2.
Proof.
  intros H. apply DecimalZ.to_int_inj.
  pose proof (Number_toString_parse z1) as H1.
  rewrite H, Number_toString_parse in H1. congruence.
Qed.

Lemma interpolate_inj (a b : option Z) : interpolate a = interpolate b → a = b.
Proof.
  destruct a as [x|], b as [y|]; simpl; intros H.
  - f_equal. by apply Number_toString_inj.
  - pose proof (Number_toString_parse x) as Hx. by rewrite H in Hx.
  - pose proof (Number_toString_parse y) as Hy. by rewrite <- H in Hy.
  - done.
Qed.

Lemma string_of_uint_digits u :
  string_all JSON.is_digit (NilEmpty.string_of_uint u) = true.
Proof. induction u; simpl; auto. Qed.

Lemma string_all_impl (P Q : ascii → bool) s :
  (∀ c, P c = true → Q c = true) → string_all P s = true → string_all Q s = true.
Proof.
  intros HPQ. induction s as [|c s IH]; simpl; [done|].
  intros [Hc Hs]%andb_true_iff. apply andb_true_iff. auto.
Qed.

Lemma is_digit_ascii c : JSON.is_digit c = true → is_ascii c = true.
Proof.
  destruct c as [[] [] [] [] [] [] [] []]; simpl; try discriminate; done.
Qed.

(** A numeral is not empty, and below zero it starts with the sign. *)
Lemma Number_toString_nonneg z :
  0 ≤ z →
  Number_toString z ≠ "" ∧ string_all JSON.is_digit (Number_toString z) = true.
Proof.
  intros Hz. destruct z as [|p|p]; [done| |lia].
  unfold Number_toString. simpl.
  pose proof (DecimalPos.Unsigned.to_uint_nonnil p) as Hn.
  destruct (Pos.to_uint p) eqn:E; try done;
    rewrite <- E; (split; [rewrite E; done|]);
    unfold NilZero.string_of_uint; rewrite E, <- E; apply string_of_uint_digits.
Qed.

Lemma Number_toString_ascii z : string_all is_ascii (Number_toString z) = true.
Proof.
  assert (∀ u, string_all is_ascii (NilZero.string_of_uint u) = true) as Hu.
  { intros u. destruct u; try done;
      apply (string_all_impl JSON.is_digit), (string_of_uint_digits (_ u));
      apply is_digit_ascii. }
  unfold Number_toString. destruct (Z.to_int z); simpl; [apply Hu|].
  by rewrite Hu.
Qed.

Lemma interpolate_ascii (n : option Z) : string_all is_ascii (interpolate n) = true.
Proof. destruct n; [apply Number_toString_ascii|done]. Qed.

(** [parseInt] reads back the numeral of a number that is not negative. *)
Lemma parseInt_Number_toString z : 0 ≤ z → parseInt (Number_toString z) = z.
Proof.
  intros Hz. destruct z as [|p|p]; [done| |lia].
  unfold parseInt, Number_toString. simpl.
  pose proof (DecimalPos.Unsigned.to_uint_nonnil p) as Hn.
  replace (NilZero.string_of_uint (Pos.to_uint p))
    with (NilEmpty.string_of_uint (Pos.to_uint p))
    by (by destruct (Pos.to_uint p)).
  rewrite NilEmpty.usu. unfold N.of_uint.
  by rewrite DecimalPos.Unsigned.of_to.
Qed.

(** A text is split in one way only at a byte that its first part cannot
    contain. *)
Lemma append_marker_inj s1 s2 c r1 r2 :
  string_all is_ascii s1 = true → string_all is_ascii s2 = true →
  is_ascii c = false →
  s1 +:+ String c r1 = s2 +:+ String c r2 → s1 = s2 ∧ r1 = r2.
Proof.
  intros H1 H2 Hc. revert s2 H2.
  induction s1 as [|a s1 IH]; intros [|b s2] H2; simpl in *.
  - by intros [= ->].
  - intros [= <- _]. apply andb_true_iff in H2 as [Hb _]. congruence.
  - intros [= -> _]. apply andb_true_iff in H1 as [Ha _]. congruence.
  - apply andb_true_iff in H1 as [_ H1]. apply andb_true_iff in H2 as [_ H2].
    intros [= -> Heq]. destruct (IH H1 s2 H2 Heq) as [-> ->]. done.
Qed.

Lemma span_digits_append s c r :
  string_all JSON.is_digit s = true → JSON.is_digit c = false →
  span_digits (s +:+ String c r) = (s, String c r).
Proof.
  intros Hs Hc. induction s as [|a s IH]; simpl in *.
  - by rewrite Hc.
  - apply andb_true_iff in Hs as [Ha Hs]. by rewrite Ha, (IH Hs).
Qed.

End Numerals.

(** ** Period keys *)

Section PeriodKeyFacts.

Variable LocalTZA : Z → Z.
Implicit Types (ts t : Z).

Lemma getPeriodKey_fields ts :
  getPeriodKey LocalTZA ts =
    interpolate (period_year LocalTZA ts) +:+ "年" +:+
    interpolate (period_month LocalTZA ts) +:+ "月" +:+
    (if period_first_half LocalTZA ts then "上半月" else "下半月").
Proof. reflexivity. Qed.

(** For a valid date the key is the key of its fields. *)
Lemma getPeriodKey_valid ts t :
  Date.TimeClip ts = Some t →
  getPeriodKey LocalTZA ts =
    period_key (Date.YearFromTime (Date.LocalTime LocalTZA t))
               (Date.MonthFromTime (Date.LocalTime LocalTZA t) + 1)
               (Date.DateFromTime (Date.LocalTime LocalTZA t) <=? 15).
Proof. intros H. unfold getPeriodKey. by rewrite H. Qed.

End PeriodKeyFacts.

(** The three parts of a key determine it, and the key determines them. *)
Lemma key_parts_inj (y1 m1 y2 m2 : option Z) (h1 h2 : bool) :
  interpolate y1 +:+ "年" +:+ interpolate m1 +:+ "月" +:+
    (if h1 then "上半月" else "下半月")
  = interpolate y2 +:+ "年" +:+ interpolate m2 +:+ "月" +:+
    (if h2 then "上半月" else "下半月") →
  y1 = y2 ∧ m1 = m2 ∧ h1 = h2.
Proof.
  simpl. intros H.
  apply append_marker_inj in H as [Hy H];
    [|apply interpolate_ascii|apply interpolate_ascii|done].
  injection H as H.
  apply append_marker_inj in H as [Hm H];
    [|apply interpolate_ascii|apply interpolate_ascii|done].
  apply interpolate_inj in Hy, Hm.
  split_and!; [done|done|].
  by destruct h1, h2.
Qed.

(** C2. Two timestamps get the same period key exactly when they have the
    same calendar year, the same calendar month and the same half of the
    month, the first half being the days of the month up to the 15th. In
    particular a timestamp on the 15th and one on the 16th get different
    keys, whatever their months. The calendar fields are those of the local
    time of the host; all timestamps outside the range of dates share the
    fields [NaN], [NaN], second half. *)
Theorem getPeriodKey_same_iff (LocalTZA : Z → Z) (t1 t2 : Z) :
  (getPeriodKey LocalTZA t1 = getPeriodKey LocalTZA t2 ↔
   period_year LocalTZA t1 = period_year LocalTZA t2 ∧
   period_month LocalTZA t1 = period_month LocalTZA t2 ∧
   period_first_half LocalTZA t1 = period_first_half LocalTZA t2) ∧
  (Date.getDate LocalTZA (Date.TimeClip t1) = Some 15 →
   Date.getDate LocalTZA (Date.TimeClip t2) = Some 16 →
   getPeriodKey LocalTZA t1 ≠ getPeriodKey LocalTZA t2).
Proof.
  assert (getPeriodKey LocalTZA t1 = getPeriodKey LocalTZA t2 →
          period_year LocalTZA t1 = period_year LocalTZA t2 ∧
          period_month LocalTZA t1 = period_month LocalTZA t2 ∧
          period_first_half LocalTZA t1 = period_first_half LocalTZA t2) as Hinj.
  { rewrite !getPeriodKey_fields. apply key_parts_inj. }
  split; [split; [exact Hinj|]|].
  - intros (Hy & Hm & Hh). rewrite !getPeriodKey_fields. by rewrite Hy, Hm, Hh.
  - intros H15 H16 Heq. apply Hinj in Heq as (_ & _ & Hh).
    unfold period_first_half in Hh. by rewrite H15, H16 in Hh.
Qed.

(** In China Standard Time 2024-03-15 23:59:59.999 and 2024-03-16 00:00 are
    a millisecond apart and get different keys; 2024-03-01 00:00 and
    2024-03-15 23:59:59.999 get the same key. *)
Lemma getPeriodKey_same_iff_witness :
  getPeriodKey Samples.CST 1710518399999 ≠ getPeriodKey Samples.CST 1710518400000 ∧
  getPeriodKey Samples.CST 1709222400000 = getPeriodKey Samples.CST 1710518399999.
Proof.
  split.
  - apply (getPeriodKey_same_iff Samples.CST 1710518399999 1710518400000);
      reflexivity.
  - apply (getPeriodKey_same_iff Samples.CST 1709222400000 1710518399999).
    split_and!; reflexivity.
Defined.

(** ** The calendar *)

(** The month of a day number is between 1 and 12 and its day of the month
    between 1 and 31. *)
Lemma civil_from_days_range (day : Z) :
  1 ≤ (Date.civil_from_days day).1.2 ≤ 12 ∧ 1 ≤ (Date.civil_from_days day).2 ≤ 31.
Proof.
  unfold Date.civil_from_days. cbv zeta. simpl.
  set (z := day + 719468).
  set (era := z / 146097).
  set (doe := z - era * 146097).
  assert (0 ≤ doe ≤ 146096) as Hdoe
    by (unfold doe, era; Z.to_euclidean_division_equations; lia).
  clearbody doe. clear era z.
  set (yoe := (doe - doe / 1460 + doe / 36524 - doe / 146096) / 365).
  set (doy := doe - (365 * yoe + yoe / 4 - yoe / 100)).
  assert (0 ≤ doy ≤ 365) as Hdoy
    by (unfold doy, yoe; Z.to_euclidean_division_equations; lia).
  clearbody doy.
  set (mp := (5 * doy + 2) / 153).
  assert (0 ≤ mp ≤ 11) by (unfold mp; Z.to_euclidean_division_equations; lia).
  destruct (mp <? 10) eqn:E; [apply Z.ltb_lt in E|apply Z.ltb_ge in E];
    unfold mp in *; Z.to_euclidean_division_equations; lia.
Qed.

Lemma MonthFromTime_range (t : Z) : 0 ≤ Date.MonthFromTime t ≤ 11.
Proof.
  unfold Date.MonthFromTime.
  destruct (civil_from_days_range (Date.Day t)) as [? _]. lia.
Qed.

(** ** The order of the periods *)

Section Parse.

Implicit Types (k : string) (y m : Z) (h : bool).

Lemma regex_match_here k parts :
  match_here k = Some parts → regex_match k = Some parts.
Proof.
  intros H. destruct k as [|c k]; [by vm_compute in H|].
  change (regex_match (String c k))
    with (match match_here (String c k) with
          | Some p => Some p
          | None => regex_match k
          end).
  by rewrite H.
Qed.

Lemma take_line_part h :
  take_line (if h then "上半月" else "下半月") = (if h then "上半月" else "下半月").
Proof. by destruct h. Qed.

(** The bytes of a key around its two numerals. *)
Lemma period_key_bytes y m h :
  period_key y m h =
    Number_toString y +:+
    String "229" (String "185" (String "180"
      (Number_toString m +:+
       String "230" (String "156" (String "136"
         (if h then "上半月" else "下半月")))))).
Proof. reflexivity. Qed.

Lemma strip_prefix_year r :
  strip_prefix "年" (String "229" (String "185" (String "180" r))) = Some r.
Proof. reflexivity. Qed.

Lemma strip_prefix_month r :
  strip_prefix "月" (String "230" (String "156" (String "136" r))) = Some r.
Proof. reflexivity. Qed.

Lemma match_here_period_key y m h :
  0 ≤ y → 0 ≤ m →
  match_here (period_key y m h)
  = Some (Number_toString y, Number_toString m, if h then "上半月" else "下半月").
Proof.
  intros Hy Hm.
  destruct (Number_toString_nonneg y Hy) as [Hy0 Hyd].
  destruct (Number_toString_nonneg m Hm) as [Hm0 Hmd].
  unfold match_here. rewrite period_key_bytes.
  rewrite span_digits_append by done.
  apply String.eqb_neq in Hy0 as ->.
  rewrite strip_prefix_year, span_digits_append by done.
  apply String.eqb_neq in Hm0 as ->.
  rewrite strip_prefix_month, take_line_part. by destruct h.
Qed.

Lemma parse_period_key y m h :
  0 ≤ y → 0 ≤ m →
  parse (period_key y m h) = y * 1000 + m * 10 + half_value h.
Proof.
  intros Hy Hm. unfold parse.
  rewrite (regex_match_here _ _ (match_here_period_key y m h Hy Hm)).
  rewrite !parseInt_Number_toString by done.
  by destruct h.
Qed.

Lemma period_comparefn_key (a b : string) (s : unit) :
  is_positive (period_comparefn a b s).1 = (parse a <? parse b).
Proof.
  unfold is_positive, Positive_Z, period_comparefn. simpl.
  destruct (Z.ltb_spec 0 (parse b - parse a)), (Z.ltb_spec (parse a) (parse b)); lia.
Qed.

Lemma periods_sorted (groups : list (string * list Question)) :
  StronglySorted (λ a b, parse b ≤ parse a) (periods groups).
Proof. apply Array_sort_sorted, period_comparefn_key. Qed.

End Parse.

(** C3. The periods are presented in descending order of the value
    [parse] derives from their keys, and nothing is lost or added by the
    sort. For the key of a period with a year that is not negative that
    value is [year*1000 + month*10 + half], with [half] 0 for the first
    half and 1 for the second; this is the case of the key of every
    timestamp from year 0 on, whose month is between 1 and 12. With months
    in that range the value orders the periods by year, then by month,
    then by half, so the first half of January 2025 comes before the
    second half of December 2024. *)
Theorem periods_sorted_descending :
  (∀ groups : list (string * list Question),
     periods groups ≡ₚ map fst groups ∧
     StronglySorted (λ a b, parse b ≤ parse a) (periods groups)) ∧
  (∀ y m h, 0 ≤ y → 0 ≤ m →
     parse (period_key y m h) = y * 1000 + m * 10 + half_value h) ∧
  (∀ LocalTZA ts t,
     Date.TimeClip ts = Some t →
     let y := Date.YearFromTime (Date.LocalTime LocalTZA t) in
     let m := Date.MonthFromTime (Date.LocalTime LocalTZA t) + 1 in
     let h := Date.DateFromTime (Date.LocalTime LocalTZA t) <=? 15 in
     0 ≤ y →
     1 ≤ m ≤ 12 ∧
     parse (getPeriodKey LocalTZA ts) = y * 1000 + m * 10 + half_value h) ∧
  (∀ y1 m1 h1 y2 m2 h2,
     0 ≤ y1 → 0 ≤ y2 → 1 ≤ m1 ≤ 12 → 1 ≤ m2 ≤ 12 →
     (parse (period_key y1 m1 h1) < parse (period_key y2 m2 h2) ↔
      y1 < y2 ∨
      (y1 = y2 ∧ (m1 < m2 ∨ (m1 = m2 ∧ half_value h1 < half_value h2))))) ∧
  (∀ g1 g2 : list Question,
     periods [("2024年12月下半月", g1); ("2025年1月上半月", g2)]
     = ["2025年1月上半月"; "2024年12月下半月"]).
Proof.
  split_and!.
  - intros groups. split; [apply periods_perm|apply periods_sorted].
  - apply parse_period_key.
  - intros LocalTZA ts t Hclip y m h Hy.
    pose proof (MonthFromTime_range (Date.LocalTime LocalTZA t)) as Hm.
    split; [unfold m; lia|].
    rewrite (getPeriodKey_valid LocalTZA ts t Hclip).
    apply parse_period_key; [done|unfold m; lia].
  - intros y1 m1 h1 y2 m2 h2 Hy1 Hy2 Hm1 Hm2.
    rewrite !parse_period_key by lia.
    destruct h1, h2; unfold half_value; lia.
  - intros g1 g2. reflexivity.
Qed.

(** The key of 2024-12-31 in China Standard Time has the value 2024121,
    and the periods of a store come out most recent first. *)
Lemma periods_sorted_descending_witness :
  parse (getPeriodKey Samples.CST 1735600000000) = 2024 * 1000 + 12 * 10 + 1 ∧
  parse (period_key 2025 1 true) = 2025010 ∧
  parse (period_key 2024 12 false) < parse (period_key 2025 1 true).
Proof.
  destruct periods_sorted_descending as (_ & Hkey & Hts & Hord & _).
  split_and!.
  - apply (Hts Samples.CST 1735600000000 1735600000000 eq_refl).
    vm_compute. discriminate.
  - apply (Hkey 2025 1 true); lia.
  - apply (Hord 2024 12 false 2025 1 true); lia.
Defined.

(** ** Loading *)

Example loadQuestions_saved :
  loadQuestions (saveQuestions [] ∅) = Return (JSON.JArray []) ∧
  ∃ items, loadQuestions (saveQuestions Samples.store ∅) = Return (JSON.JArray items)
           ∧ length items = 4%nat.
Proof. split; [by vm_compute|]. eexists. split; by vm_compute. Qed.

(** C7, as the specification states it, fails: a stored blob that is not
    valid JSON, here an opening brace alone, makes [loadQuestions] throw the
    [SyntaxError] of [JSON.parse] instead of returning the empty
    collection. *)
Lemma loadQuestions_corrupt_throws :
  ¬ (∀ (store : Storage) (text : string),
       store !! STORAGE_KEY = Some text →
       JSON.parse text = Throw SyntaxError →
       loadQuestions store = Return (JSON.JArray [])).
Proof.
  intros H.
  specialize (H (<[STORAGE_KEY := "{"]> ∅) "{" (lookup_insert_eq _ _ _) eq_refl).
  unfold loadQuestions in H. rewrite lookup_insert_eq in H. discriminate H.
Qed.

(** C7, amended. [loadQuestions] returns the empty collection when the
    blob is absent or is the empty string; for every other stored text it
    returns what [JSON.parse] returns and throws what [JSON.parse] throws,
    so a text that is not valid JSON makes it throw a [SyntaxError]. *)
Theorem loadQuestions_cases (store : Storage) :
  (store !! STORAGE_KEY = None → loadQuestions store = Return (JSON.JArray [])) ∧
  (store !! STORAGE_KEY = Some "" → loadQuestions store = Return (JSON.JArray [])) ∧
  (∀ text, store !! STORAGE_KEY = Some text → text ≠ "" →
           loadQuestions store = JSON.parse text) ∧
  (∀ text, store !! STORAGE_KEY = Some text → text ≠ "" →
           JSON.parse text = Throw SyntaxError →
           loadQuestions store = Throw SyntaxError).
Proof.
  assert (∀ text, store !! STORAGE_KEY = Some text → text ≠ "" →
                  loadQuestions store = JSON.parse text) as Hparse.
  { intros text Hget Hne. unfold loadQuestions. rewrite Hget.
    by destruct text. }
  unfold loadQuestions. split_and!.
  - by intros ->.
  - by intros ->.
  - exact Hparse.
  - intros text Hget Hne Hthrow. fold (loadQuestions store).
    by rewrite (Hparse text Hget Hne).
Qed.

(** A truncated blob makes the load throw; an empty storage loads as the
    empty collection. *)
Lemma loadQuestions_cases_witness :
  loadQuestions (<[STORAGE_KEY := "[{"]> ∅) = Throw SyntaxError ∧
  loadQuestions ∅ = Return (JSON.JArray []).
Proof.
  destruct (loadQuestions_cases (<[STORAGE_KEY := "[{"]> ∅)) as (_ & _ & _ & Hthrow).
  destruct (loadQuestions_cases ∅) as (Hnone & _).
  split.
  - apply (Hthrow "[{"); [apply lookup_insert_eq|discriminate|reflexivity].
  - apply Hnone, lookup_empty.
Defined.

(** ** Creation *)

Section Creation.

Implicit Types (f : AddQuestion.Form) (w : World) (ops : list Creation).

Global Instance Number_toString_inj' : Inj (=) (=) Number_toString.
Proof. intros ??. apply Number_toString_inj. Qed.

Lemma save_ids f now_id now_created w :
  map id (questions (AddQuestion.save f now_id now_created w)) =
    (if truthy (AddQuestion.image f) then [Number_toString now_id] else [])
    ++ map id (questions w).
Proof.
  unfold AddQuestion.save, AddQuestion.handleSave.
  destruct (AddQuestion.image f) as [[|c img]|]; done.
Qed.

Lemma run_saves_ids ops w :
  map id (questions (run_saves ops w)) =
    map Number_toString (reverse (id_readings ops)) ++ map id (questions w).
Proof.
  revert w. induction ops as [|[[f now_id] now_created] ops IH]; intros w; [done|].
  unfold run_saves in *. simpl. rewrite IH, save_ids.
  destruct (truthy (AddQuestion.image f)); [|done].
  rewrite reverse_cons, map_app. by rewrite <- app_assoc.
Qed.

End Creation.

(** C9, as the specification states it, fails: the id is the decimal
    numeral of the clock reading at creation, so two creations at the same
    reading put two different questions with the same id into the store. *)
Lemma same_clock_same_id :
  ¬ (∀ (ops : list Creation) (i j : nat) (q1 q2 : Question),
       questions (run_saves ops Samples.w_empty) !! i = Some q1 →
       questions (run_saves ops Samples.w_empty) !! j = Some q2 →
       i ≠ j → id q1 ≠ id q2).
Proof.
  intros H.
  set (t := 1700000000000).
  set (ops := [(Samples.form "data:image/png;base64,AAAA", t, t);
               (Samples.form "data:image/png;base64,BBBB", t, t)]).
  eapply (H ops 0%nat 1%nat); [reflexivity|reflexivity|lia|reflexivity].
Qed.

(** C9, amended. Starting from a store whose ids are pairwise different,
    after any sequence of creations whose clock readings for the id are
    pairwise different and are not the numeral of an id already in the
    store, the ids of the store are pairwise different: they are the
    numerals of the readings, newest first, followed by the ids that were
    there. An id is never assigned again: the store update keeps the id at
    every position. *)
Theorem ids_unique_for_distinct_readings (ops : list Creation) (w : World) :
  NoDup (map id (questions w)) →
  NoDup (id_readings ops) →
  (∀ t, t ∈ id_readings ops → Number_toString t ∉ map id (questions w)) →
  NoDup (map id (questions (run_saves ops w))) ∧
  map id (questions (run_saves ops w)) =
    map Number_toString (reverse (id_readings ops)) ++ map id (questions w) ∧
  (∀ q, map id (questions (handleUpdateQuestion q (run_saves ops w)))
        = map id (questions (run_saves ops w))).
Proof.
  intros Hstore Hreadings Hfresh. split_and!.
  - rewrite run_saves_ids. apply NoDup_app. split_and!; [|
      |done].
    + apply (NoDup_fmap_2 Number_toString). by rewrite reverse_Permutation.
    + intros x (t & -> & Ht)%list_elem_of_fmap.
      apply Hfresh. by rewrite elem_of_reverse in Ht.
  - apply run_saves_ids.
  - intros q. apply updated_by_ids.
Qed.

(** Two creations a minute apart in an empty store get different ids. *)
Lemma ids_unique_for_distinct_readings_witness :
  NoDup (map id (questions
    (run_saves [(Samples.form "data:image/png;base64,AAAA", 1700000000000, 1700000000000);
                (Samples.form "data:image/png;base64,BBBB", 1700000060000, 1700000060001)]
       Samples.w_empty))).
Proof.
  apply ids_unique_for_distinct_readings.
  - constructor.
  - simpl. apply NoDup_cons. split; [|apply NoDup_singleton].
    intros [=]%list_elem_of_singleton.
  - intros t _ Hin. by apply elem_of_nil in Hin.
Defined.

(** ** Reachable states *)

Section Reachable.

Variable LocalTZA : Z → Z.
Implicit Types (w : World) (g : Rng) (e : Event) (es : list Event).

Lemma index_in_pool_list w : mode (review w) = mode_list → index_in_pool w.
Proof. intros Hm. unfold index_in_pool. by rewrite Hm. Qed.

Lemma index_in_pool_start pool w (shuffled : list Question) title f :
  shuffled ≡ₚ pool → pool ≠ [] →
  index_in_pool
    (set_review (mkReview mode_exam shuffled 0 false title f) w).
Proof.
  intros Hperm Hne _. unfold in_bounds, array_length. simpl.
  apply Permutation_length in Hperm. destruct pool; [done|].
  simpl in Hperm. apply Z.ltb_lt. lia.
Qed.

Lemma startRandomExam_index_in_pool g w :
  index_in_pool w → index_in_pool (startRandomExam g w).1.
Proof.
  intros Hw. unfold startRandomExam.
  set (pool := if bool_decide _ then _ else _).
  destruct (array_length pool =? 0) eqn:E; [done|].
  pose proof (shuffle_perm pool g) as Hperm.
  destruct (shuffle pool g) as [shuffled g']. simpl in *.
  apply (index_in_pool_start pool); [done|].
  intros ->. by apply Z.eqb_neq in E.
Qed.

Lemma period_click_index_in_pool period g w :
  index_in_pool w → index_in_pool (period_click LocalTZA period g w).1.
Proof.
  intros Hw. unfold period_click.
  destruct (group_of period _) as [group|] eqn:Hg; [|done].
  destruct (negb (exam_view w) && _); [|done].
  rewrite group_of_periodGroups in Hg.
  unfold startPeriodExam.
  pose proof (shuffle_perm group g) as Hperm.
  destruct (shuffle group g) as [shuffled g']. simpl in *.
  apply (index_in_pool_start group); [done|].
  intros ->. unfold group_value in Hg. by destruct (filter _ _).
Qed.

Lemma previous_click_index_in_pool w :
  index_in_pool w → index_in_pool (previous_click w).
Proof.
  intros Hw. unfold previous_click.
  destruct (exam_view w && _) eqn:E; [|done].
  apply andb_true_iff in E as [[Hm%bool_decide_eq_true _]%andb_true_iff _].
  specialize (Hw Hm). intros _. unfold previous_onClick. simpl.
  unfold in_bounds in *. apply andb_true_iff in Hw as [H0 Hlt].
  apply andb_true_iff. lia.
Qed.

Lemma handleUpdateMastery_index_in_pool q status w w' :
  handleUpdateMastery q status w = Some w' →
  index_in_pool w → index_in_pool w'.
Proof.
  unfold handleUpdateMastery.
  destruct (in_bounds _ _) eqn:Hb; [|done]. intros [= <-] _ _. simpl.
  unfold in_bounds in *. by rewrite array_set_length.
Qed.

Lemma handleNext_index_in_pool now w :
  mode (review w) = mode_exam → index_in_pool w →
  ∃ w', handleNext now w = Return w' ∧ index_in_pool w'.
Proof.
  intros Hm Hw. specialize (Hw Hm).
  destruct (in_bounds_array_get _ _ Hw) as [currentQ Hget].
  unfold handleNext. rewrite Hget.
  destruct (currentExamIndex (review w) <? _) eqn:Hlt;
    (eexists; split; [reflexivity|]).
  - intros _. simpl. unfold in_bounds in *. rewrite array_set_length.
    apply andb_true_iff in Hw as [H0 _]. apply andb_true_iff. lia.
  - by apply index_in_pool_list.
Qed.

Lemma render_index_in_pool w : index_in_pool w → render w = Return tt.
Proof.
  intros Hw. unfold render.
  destruct (bool_decide _ && exam_view w) eqn:E; [|done].
  apply andb_true_iff in E as [_ [Hm%bool_decide_eq_true _]%andb_true_iff].
  by destruct (in_bounds_array_get _ _ (Hw Hm)) as [q ->].
Qed.

Lemma handle_index_in_pool e w g :
  index_in_pool w →
  ∃ w' g', handle LocalTZA e w g = Return (w', g') ∧ index_in_pool w'.
Proof.
  intros Hw. destruct e; simpl.
  - eexists _, _. split; [done|]. unfold setActiveTab, index_in_pool. simpl.
    by destruct (bool_decide _).
  - destruct (bool_decide (activeTab w = tab_add)) eqn:Htab; [|by eauto].
    apply bool_decide_eq_true in Htab.
    eexists _, _. split; [done|].
    unfold AddQuestion.save. destruct (AddQuestion.handleSave _ _ _); [|done].
    apply index_in_pool_list. simpl. by rewrite Htab.
  - destruct (_ && negb (exam_view w)); [|by eauto].
    destruct (startRandomExam g w) as [w' g'] eqn:E.
    eexists _, _. split; [done|].
    pose proof (startRandomExam_index_in_pool g w Hw) as H. by rewrite E in H.
  - destruct (_ && negb (exam_view w)); [|by eauto].
    destruct (period_click LocalTZA period g w) as [w' g'] eqn:E.
    eexists _, _. split; [done|].
    pose proof (period_click_index_in_pool period g w Hw) as H. by rewrite E in H.
  - destruct (_ && negb (exam_view w)); by eauto.
  - destruct (_ && exam_view w); [|by eauto].
    eexists _, _. split; [done|]. by apply index_in_pool_list.
  - destruct (_ && exam_view w && _); by eauto.
  - destruct (array_get _ _) as [q|]; [|by eauto].
    destruct (_ && _ && _ && _); [|by eauto].
    destruct (handleUpdateMastery q status w) as [w'|] eqn:E; [|by eauto].
    eexists _, _. split; [done|]. by eapply handleUpdateMastery_index_in_pool.
  - destruct (bool_decide _); [|by eauto].
    eexists _, _. split; [done|]. by apply previous_click_index_in_pool.
  - destruct (_ && exam_view w) eqn:E; [|by eauto].
    apply andb_true_iff in E as [_ [Hm%bool_decide_eq_true _]%andb_true_iff].
    destruct (handleNext_index_in_pool now w Hm Hw) as (w' & -> & Hw').
    by eauto.
Qed.

(** No sequence of events throws, and the index stays inside the pool: an
    exam never runs over an empty pool. *)
Lemma dispatch_all_index_in_pool es w g :
  index_in_pool w →
  ∃ w' g', dispatch_all LocalTZA es w g = Return (w', g') ∧ index_in_pool w'.
Proof.
  revert w g. induction es as [|e es IH]; intros w g Hw; simpl; [by eauto|].
  destruct (handle_index_in_pool e w g Hw) as (w1 & g1 & He & Hw1).
  unfold dispatch. rewrite He, (render_index_in_pool _ Hw1).
  by apply IH.
Qed.

Lemma reachable_index_in_pool es qs store g :
  ∃ w' g', dispatch_all LocalTZA es (World_initial qs store) g = Return (w', g')
           ∧ index_in_pool w'.
Proof. by apply dispatch_all_index_in_pool, index_in_pool_list. Qed.

End Reachable.

(** C6. When the set filtered by the criterion of [startRandomExam] ([all]
    or [priority]) is empty, the empty pool is reported with an alert and
    nothing else changes: the session, the pool, the store and the storage
    are those before the call and the random generator is not consumed.
    The remaining criterion, a period, is only offered for the listed
    periods, and the filtered set of a listed period is never empty. So no
    sequence of user events throws or leads to an exam over an empty
    pool. *)
Theorem empty_pool_is_reported (g : Rng) (w : World) :
  let pool := if bool_decide (filterMode (review w) = filter_priority)
              then filter is_review_needed (questions w) else questions w in
  (pool = [] →
   startRandomExam g w = (alert "当前列表没有题目可考！" w, g) ∧
   review (startRandomExam g w).1 = review w ∧
   session (startRandomExam g w).1 = session w ∧
   questions (startRandomExam g w).1 = questions w ∧
   localStorage (startRandomExam g w).1 = localStorage w ∧
   alerts (startRandomExam g w).1 = alerts w ++ ["当前列表没有题目可考！"]) ∧
  (∀ LocalTZA period,
     period ∈ periods (periodGroups LocalTZA (questions w)) →
     filter (λ q, getPeriodKey LocalTZA (createdAt q) = period) (questions w) ≠ []) ∧
  (∀ LocalTZA es qs store,
     ∃ w' g', dispatch_all LocalTZA es (World_initial qs store) g = Return (w', g') ∧
              (mode (review w') = mode_exam → examQuestions (review w') ≠ [])).
Proof.
  cbv zeta. split_and!.
  - intros Hnil. rewrite (startRandomExam_empty g w Hnil). by split_and!.
  - intros LocalTZA period. apply listed_period_nonempty.
  - intros LocalTZA es qs store.
    destruct (reachable_index_in_pool LocalTZA es qs store g) as (w' & g' & Hrun & Hw').
    exists w', g'. split; [done|]. intros Hm Hnil. specialize (Hw' Hm).
    rewrite Hnil in Hw'. unfold in_bounds, array_length in Hw'. simpl in Hw'.
    apply andb_true_iff in Hw' as [H0%Z.leb_le Hlt%Z.ltb_lt]. lia.
Qed.

(** The priority filter over a store without a question to review. *)
Lemma empty_pool_is_reported_witness :
  let w := mkWorld tab_review [Samples.qb; Samples.qc]
             (mkReview mode_list [] 0 false "错题组卷" filter_priority) ∅ [] in
  startRandomExam Samples.rng w = (alert "当前列表没有题目可考！" w, Samples.rng).
Proof.
  intros w. by apply (empty_pool_is_reported Samples.rng w).
Defined.

(** ** Scenarios *)

(** A question saved on 2024-03-10 (China Standard Time) is grouped under
    the first half of March 2024; the exam of that period has one question,
    and one advance finishes it and persists a review count of 1. *)
Example period_exam_scenario :
  let events :=
    [ClickTab tab_add;
     ClickSave (Samples.form "data:image/png;base64,AAAA") 1710036000000 1710036000000;
     ClickPeriodExam "2024年3月上半月"] in
  ∃ w1 g1 w2 g2,
    dispatch_all Samples.CST events (World_initial [] ∅) Samples.rng = Return (w1, g1) ∧
    periods (periodGroups Samples.CST (questions w1)) = ["2024年3月上半月"] ∧
    session w1 = Active 0 false ∧
    length (examQuestions (review w1)) = 1%nat ∧
    dispatch Samples.CST (ClickNext 1710036600000) w1 g1 = Return (w2, g2) ∧
    session w2 = Finished ∧
    map reviewCount (questions w2) = [1] ∧
    map lastReviewedAt (questions w2) = [Some 1710036600000] ∧
    localStorage w2 !! STORAGE_KEY = Some (JSON.stringify (questions w2)).
Proof.
  cbv zeta. eexists _, _, _, _.
  split; [vm_compute; reflexivity|].
  split; [vm_compute; reflexivity|].
  split; [vm_compute; reflexivity|].
  split; [vm_compute; reflexivity|].
  split; [vm_compute; reflexivity|].
  split; [vm_compute; reflexivity|].
  split; [vm_compute; reflexivity|].
  split; vm_compute; reflexivity.
Qed.

(** Over a pool of three questions three advances end the session, and
    each question has been reviewed once. *)
Example three_advances_finish :
  ∃ w' g',
    dispatch_all Samples.CST [ClickNext 1; ClickReveal; ClickNext 2; ClickNext 3]
      (Samples.w_exam 0 false) Samples.rng = Return (w', g') ∧
    session w' = Finished ∧
    map reviewCount (examQuestions (review w')) = [1; 1; 1] ∧
    map reviewCount (questions w') = [1; 0; 1; 1].
Proof.
  eexists _, _. split; [vm_compute; reflexivity|].
  split; [vm_compute; reflexivity|].
  split; vm_compute; reflexivity.
Qed.

(** * Further properties of the code *)

(** ** Mastery updates *)

Section MasteryFacts.

Implicit Types (q : Question) (qs : list Question) (w : World)
  (status : MasteryStatus).

Lemma updated_by_twice q1 q2 qs :
  id q1 = id q2 → updated_by q2 (updated_by q1 qs) = updated_by q2 qs.
Proof.
  intros Hid. unfold updated_by. rewrite map_map. apply map_ext. intros item.
  destruct (String.eqb (id item) (id q1)) eqn:E1; [|done].
  apply String.eqb_eq in E1. rewrite E1, Hid. by rewrite String.eqb_refl.
Qed.

Lemma array_set_twice {A} (arr : list A) i (a b : A) :
  array_set (array_set arr i a) i b = array_set arr i b.
Proof.
  unfold array_set. destruct (0 <=? i); [|done].
  apply list_insert_insert_eq.
Qed.

Lemma saveQuestions_twice qs1 qs2 (store : Storage) :
  saveQuestions qs2 (saveQuestions qs1 store) = saveQuestions qs2 store.
Proof. unfold saveQuestions. apply insert_insert_eq. Qed.

Lemma handleUpdateQuestion_twice q1 q2 (p1 p2 : list Question) w :
  id q1 = id q2 →
  handleUpdateQuestion q2
    (setExamQuestions p2 (handleUpdateQuestion q1 (setExamQuestions p1 w)))
  = handleUpdateQuestion q2 (setExamQuestions p2 w).
Proof.
  intros Hid. pose proof (updated_by_twice q1 q2 (questions w) Hid) as H.
  unfold updated_by in H.
  unfold handleUpdateQuestion, persist, setQuestions, setExamQuestions, set_review.
  cbn [questions review localStorage activeTab alerts mode examQuestions
       currentExamIndex showAnswer examTitle filterMode].
  by rewrite H, saveQuestions_twice.
Qed.

End MasteryFacts.

(** X1. Last write wins for the mastery buttons: a second mastery update
    of the question at the current position leaves exactly the state a
    single update with the second status would have left, in the pool, in
    the store and in the storage. *)
Theorem mastery_last_write_wins (q q1 : Question) (s1 s2 : MasteryStatus)
    (w w1 : World) :
  handleUpdateMastery q s1 w = Some w1 →
  array_get (examQuestions (review w1)) (currentExamIndex (review w1)) = Some q1 →
  handleUpdateMastery q1 s2 w1 = handleUpdateMastery q s2 w ∧
  ∃ w2, handleUpdateMastery q1 s2 w1 = Some w2 ∧
        array_get (examQuestions (review w2)) (currentExamIndex (review w2))
        = Some (with_masteryStatus q s2).
Proof.
  unfold handleUpdateMastery.
  destruct (in_bounds (examQuestions (review w)) _) eqn:Hb; [|done].
  intros [= <-]. simpl. rewrite array_get_set_eq by done. intros [= <-].
  assert (in_bounds (array_set (examQuestions (review w))
            (currentExamIndex (review w)) (with_masteryStatus q s1))
            (currentExamIndex (review w)) = true) as ->.
  { unfold in_bounds in *. by rewrite array_set_length. }
  rewrite array_set_twice.
  assert (with_masteryStatus (with_masteryStatus q s1) s2 = with_masteryStatus q s2)
    as -> by done.
  split.
  - f_equal. by apply handleUpdateQuestion_twice.
  - eexists. split; [reflexivity|]. simpl. by apply array_get_set_eq.
Qed.

(** On the first question of the sample exam, "mastered" and then "needs
    review" leave the status "needs review". *)
Lemma mastery_last_write_wins_witness :
  ∃ w2, handleUpdateMastery (with_masteryStatus Samples.qb mastered) review_needed
          (default (Samples.w_exam 0 true)
             (handleUpdateMastery Samples.qb mastered (Samples.w_exam 0 true)))
        = Some w2 ∧
        array_get (examQuestions (review w2)) (currentExamIndex (review w2))
        = Some (with_masteryStatus Samples.qb review_needed).
Proof.
  apply (mastery_last_write_wins Samples.qb (with_masteryStatus Samples.qb mastered)
           mastered review_needed (Samples.w_exam 0 true)); reflexivity.
Defined.



(** ** Starting an exam *)

(** X3. The start button of a period card, in the list view with the
    filter [all]: when the collection has questions with the key of the
    period, an exam starts at the first question, answer hidden, over a
    permutation of exactly those questions, titled after the period, and
    the collection is left as it was; when it has none, there is no such
    card and nothing changes. *)
Theorem period_exam_pool (LocalTZA : Z → Z) (period : string) (g : Rng) (w : World) :
  exam_view w = false →
  filterMode (review w) = filter_all →
  let group := filter (λ q, getPeriodKey LocalTZA (createdAt q) = period) (questions w) in
  let w' := (period_click LocalTZA period g w).1 in
  (group = [] → period_click LocalTZA period g w = (w, g)) ∧
  (group ≠ [] →
   session w' = Active 0 false ∧
   examQuestions (review w') ≡ₚ group ∧
   examTitle (review w') = period +:+ " 模拟考试" ∧
   questions w' = questions w ∧
   localStorage w' = localStorage w).
Proof.
  intros Hview Hfilter. cbv zeta. unfold period_click.
  rewrite group_of_periodGroups, Hview, Hfilter. simpl.
  destruct (filter _ (questions w)) as [|q group] eqn:Hgroup; simpl.
  - by split.
  - split; [done|]. intros _. unfold startPeriodExam.
    pose proof (shuffle_perm (q :: group) g) as Hperm.
    by destruct (shuffle (q :: group) g) as [shuffled g'].
Qed.

(** The card of the second half of March 2024 over the sample store. *)
Lemma period_exam_pool_witness :
  examQuestions
    (review (period_click Samples.CST "2024年3月下半月" Samples.rng Samples.w_list).1)
  ≡ₚ [Samples.qd; Samples.qc].
Proof.
  pose proof (period_exam_pool Samples.CST "2024年3月下半月" Samples.rng
                Samples.w_list eq_refl eq_refl) as [_ Hstart].
  destruct Hstart as (_ & Hperm & _);
    [intros Hnil; vm_compute in Hnil; discriminate Hnil|].
  exact Hperm.
Defined.

(** X4. The random exam button: when the set selected by the filter mode
    (every question for [all], the questions that need review for
    [priority]) is not empty, an exam starts at the first question, answer
    hidden, over a permutation of that set, with the title of the mode;
    the filter mode, the collection, the storage and the alerts are
    untouched. *)
Theorem random_exam_pool (g : Rng) (w : World) :
  let priority := bool_decide (filterMode (review w) = filter_priority) in
  let pool := if priority then filter is_review_needed (questions w)
              else questions w in
  let w' := (startRandomExam g w).1 in
  pool ≠ [] →
  session w' = Active 0 false ∧
  examQuestions (review w') ≡ₚ pool ∧
  examTitle (review w') = (if priority then "重点题目突击" else "随机巩固练习") ∧
  filterMode (review w') = filterMode (review w) ∧
  questions w' = questions w ∧
  localStorage w' = localStorage w ∧
  alerts w' = alerts w.
Proof.
  cbv zeta. intros Hne. unfold startRandomExam.
  set (pool := if bool_decide _ then _ else _) in *.
  destruct (array_length pool =? 0) eqn:E.
  { apply Z.eqb_eq in E. unfold array_length in E. by destruct pool. }
  pose proof (shuffle_perm pool g) as Hperm.
  by destruct (shuffle pool g) as [shuffled g'].
Qed.

(** A random exam over the whole sample store. *)
Lemma random_exam_pool_witness :
  examQuestions (review (startRandomExam Samples.rng Samples.w_list).1)
  ≡ₚ Samples.store.
Proof.
  destruct (random_exam_pool Samples.rng Samples.w_list) as (_ & Hperm & _);
    [discriminate|exact Hperm].
Defined.

(** ** No event throws *)



(** ** The groups partition the collection *)

Section Partition.

Implicit Types (key : string) (q : Question) (qs : list Question)
  (groups : list (string * list Question)).

Lemma push_group_keys key q groups :
  map fst (push_group key q groups) =
    if bool_decide (key ∈ map fst groups) then map fst groups
    else map fst groups ++ [key].
Proof.
  induction groups as [|[k ks] rest IH]; simpl; [done|].
  destruct (String.eqb k key) eqn:E; simpl.
  - apply String.eqb_eq in E as ->.
    by rewrite bool_decide_eq_true_2 by (by left).
  - apply String.eqb_neq in E. rewrite IH.
    destruct (bool_decide (key ∈ map fst rest)) eqn:Hin.
    + apply bool_decide_eq_true in Hin.
      by rewrite bool_decide_eq_true_2 by (by right).
    + apply bool_decide_eq_false in Hin.
      rewrite bool_decide_eq_false_2; [done|].
      intros [->|?]%elem_of_cons; done.
Qed.

Lemma push_group_NoDup key q groups :
  NoDup (map fst groups) → NoDup (map fst (push_group key q groups)).
Proof.
  intros Hnd. rewrite push_group_keys.
  destruct (bool_decide (key ∈ map fst groups)) eqn:Hin; [done|].
  apply bool_decide_eq_false in Hin.
  apply NoDup_app. split_and!; [done| |apply NoDup_singleton].
  intros x Hx ->%list_elem_of_singleton. done.
Qed.

Lemma push_group_concat key q groups :
  concat (map snd (push_group key q groups)) ≡ₚ q :: concat (map snd groups).
Proof.
  induction groups as [|[k ks] rest IH]; simpl; [done|].
  destruct (String.eqb k key); simpl.
  - rewrite <- app_assoc. simpl. by rewrite <- Permutation_middle.
  - rewrite IH. by rewrite <- Permutation_middle.
Qed.

Lemma group_of_elem key group groups :
  NoDup (map fst groups) → (key, group) ∈ groups →
  group_of key groups = Some group.
Proof.
  induction groups as [|[k ks] rest IH]; simpl; intros Hnd Hin.
  - by apply elem_of_nil in Hin.
  - apply NoDup_cons in Hnd as [Hk Hnd].
    apply elem_of_cons in Hin as [[= <- <-]|Hin].
    + by rewrite String.eqb_refl.
    + destruct (String.eqb k key) eqn:E; [|by apply IH].
      apply String.eqb_eq in E as ->. exfalso. apply Hk.
      apply list_elem_of_fmap. by exists (key, group).
Qed.

Variable LocalTZA : Z → Z.

Lemma periodGroups_fold_facts qs groups :
  NoDup (map fst groups) →
  NoDup (map fst (fold_left
    (λ groups q, push_group (getPeriodKey LocalTZA (createdAt q)) q groups) qs groups)) ∧
  concat (map snd (fold_left
    (λ groups q, push_group (getPeriodKey LocalTZA (createdAt q)) q groups) qs groups))
  ≡ₚ concat (map snd groups) ++ qs.
Proof.
  revert groups. induction qs as [|q qs IH]; intros groups Hnd; simpl.
  - by rewrite app_nil_r.
  - destruct (IH _ (push_group_NoDup (getPeriodKey LocalTZA (createdAt q)) q _ Hnd))
      as [Hnd' Hperm].
    split; [done|]. rewrite Hperm, push_group_concat.
    by rewrite <- Permutation_middle.
Qed.

Lemma periodGroups_NoDup qs : NoDup (map fst (periodGroups LocalTZA qs)).
Proof. apply (periodGroups_fold_facts qs []). constructor. Qed.

Lemma periodGroups_concat qs : concat (map snd (periodGroups LocalTZA qs)) ≡ₚ qs.
Proof. apply (periodGroups_fold_facts qs []). constructor. Qed.

End Partition.

(** X6. The period groups partition the collection: the keys of the
    groups are pairwise different, the group of a key holds exactly the
    questions with that key in the order of the collection and is never
    empty, every question is in the group of its key, all groups together
    are a permutation of the collection, and each period is listed once. *)
Theorem periodGroups_partition (LocalTZA : Z → Z) (qs : list Question) :
  let groups := periodGroups LocalTZA qs in
  NoDup (map fst groups) ∧
  (∀ key group, (key, group) ∈ groups →
     group ≠ [] ∧
     group = filter (λ q, getPeriodKey LocalTZA (createdAt q) = key) qs) ∧
  (∀ q, q ∈ qs →
     ∃ group, (getPeriodKey LocalTZA (createdAt q), group) ∈ groups ∧ q ∈ group) ∧
  concat (map snd groups) ≡ₚ qs ∧
  NoDup (periods groups).
Proof.
  cbv zeta. pose proof (periodGroups_NoDup LocalTZA qs) as Hnd.
  split_and!.
  - exact Hnd.
  - intros key group Hin. pose proof (group_of_elem _ _ _ Hnd Hin) as Hg.
    rewrite group_of_periodGroups in Hg. unfold group_value in Hg.
    destruct (filter _ qs); [done|]. by injection Hg as <-.
  - intros q Hq.
    set (key := getPeriodKey LocalTZA (createdAt q)).
    pose proof (group_of_periodGroups LocalTZA qs key) as Hg.
    assert (q ∈ filter (λ q0, getPeriodKey LocalTZA (createdAt q0) = key) qs) as Hqf
      by (by apply list_elem_of_filter).
    unfold group_value in Hg.
    destruct (filter _ qs) as [|x group] eqn:Hf; [by apply elem_of_nil in Hqf|].
    exists (x :: group). split; [|done].
    clear Hqf Hf. revert Hg. generalize (x :: group). intros l.
    induction (periodGroups LocalTZA qs) as [|[k ks] rest IH]; simpl; [done|].
    destruct (String.eqb k key) eqn:E.
    + apply String.eqb_eq in E as ->. intros [= ->]. by left.
    + intros H. right. apply IH; [|done].
      simpl in Hnd. by apply NoDup_cons in Hnd as [_ ?].
  - apply periodGroups_concat.
  - by rewrite periods_perm.
Qed.

(** The sample store has two periods; the questions of March are grouped
    in store order. *)
Lemma periodGroups_partition_witness :
  ∃ group,
    (getPeriodKey Samples.CST (createdAt Samples.qc), group)
      ∈ periodGroups Samples.CST Samples.store ∧
    Samples.qc ∈ group.
Proof.
  apply (periodGroups_partition Samples.CST Samples.store).
  unfold Samples.store. by do 1 right; left.
Defined.

(** ** Saving a question *)



(** ** The classification selects *)

Section FormFacts.

Import AddQuestion FormEdit.

Implicit Types (f : Form) (e : Edit) (es : list Edit).

Lemma edit_valid e f :
  category f ∈ CATEGORIES (subject f) →
  category (edit e f) ∈ CATEGORIES (subject (edit e f)).
Proof.
  intros Hf. destruct e as [s|c]; simpl.
  - destruct s; simpl; by left.
  - unfold category_onChange. by case_bool_decide.
Qed.

Lemma edit_other_fields e f :
  image (edit e f) = image f ∧ subCategory (edit e f) = subCategory f ∧
  aiAnalysis (edit e f) = aiAnalysis f ∧ myThinking (edit e f) = myThinking f ∧
  correctResolution (edit e f) = correctResolution f ∧
  rootCause (edit e f) = rootCause f ∧ tempMastery (edit e f) = tempMastery f.
Proof.
  destruct e as [s|c]; simpl.
  - by destruct s.
  - unfold category_onChange. by case_bool_decide.
Qed.

Lemma edits_valid es f :
  category f ∈ CATEGORIES (subject f) →
  category (edits es f) ∈ CATEGORIES (subject (edits es f)).
Proof.
  revert f. induction es as [|e es IH]; intros f Hf; [done|].
  apply IH. by apply edit_valid.
Qed.

Lemma edits_image es f : image (edits es f) = image f.
Proof.
  revert f. induction es as [|e es IH]; intros f; [done|].
  unfold edits in *. simpl. rewrite IH. apply edit_other_fields.
Qed.

End FormFacts.

(** X8. Choosing a subject sets the category to the first category of that
    subject, and the category select only offers the categories of the
    current subject; so after any sequence of uses of the two selects on
    the initial form the category belongs to the subject, the image is the
    uploaded one, and a question saved from the form has a category of its
    subject. *)
Theorem manual_edits_keep_category (es : list FormEdit.Edit) (img : option string) :
  let f := FormEdit.edits es (FormEdit.initial img) in
  AddQuestion.category f ∈ CATEGORIES (AddQuestion.subject f) ∧
  AddQuestion.image f = img ∧
  (∀ s f0, head (CATEGORIES s)
           = Some (AddQuestion.category (FormEdit.subject_onChange s f0)) ∧
           AddQuestion.subject (FormEdit.subject_onChange s f0) = s) ∧
  (∀ now_id now_created newQ,
     AddQuestion.handleSave f now_id now_created = Some newQ →
     category newQ ∈ CATEGORIES (subject newQ)).
Proof.
  cbv zeta.
  assert (AddQuestion.category (FormEdit.edits es (FormEdit.initial img))
          ∈ CATEGORIES (AddQuestion.subject (FormEdit.edits es (FormEdit.initial img))))
    as Hvalid by (apply edits_valid; by left).
  split_and!.
  - exact Hvalid.
  - apply edits_image.
  - intros s f0. by destruct s.
  - intros now_id now_created newQ. unfold AddQuestion.handleSave.
    destruct (AddQuestion.image _) as [[|c i]|]; simpl; [done| |done].
    by intros [= <-].
Qed.

(** Choosing the second subject and then its second category. *)
Lemma manual_edits_keep_category_witness :
  category
    (default Samples.qa
       (AddQuestion.handleSave
          (FormEdit.edits [FormEdit.SelectSubject zongying;
                           FormEdit.SelectCategory cat_wenshu;
                           FormEdit.SelectCategory cat_shuliang]
             (FormEdit.initial (Some "data:image/png;base64,AAAA")))
          1710036000000 1710036000000))
  ∈ CATEGORIES zongying.
Proof.
  by apply (manual_edits_keep_category
              [FormEdit.SelectSubject zongying; FormEdit.SelectCategory cat_wenshu;
               FormEdit.SelectCategory cat_shuliang]
              (Some "data:image/png;base64,AAAA")
           ) with (now_id := 1710036000000) (now_created := 1710036000000).
Defined.

(** ** The dashboard counters *)

Section DashboardFacts.

Import Dashboard.

Implicit Types (c : QuestionCategory) (qs : list Question)
  (stats : list (QuestionCategory * Z)).

Lemma stat_value_step (n : Z) :
  0 ≤ n → Some (or_zero (default 0 (stat_value n)) + 1) = stat_value (n + 1).
Proof.
  intros Hn. unfold stat_value, or_zero.
  destruct (n + 1 =? 0) eqn:E1; [apply Z.eqb_eq in E1; lia|].
  destruct (n =? 0) eqn:E0; simpl.
  - apply Z.eqb_eq in E0. by subst n.
  - by rewrite E0.
Qed.

Lemma stat_of_bump c c' stats :
  stat_of c' (bump c stats) =
    if bool_decide (c = c') then Some (or_zero (default 0 (stat_of c stats)) + 1)
    else stat_of c' stats.
Proof.
  induction stats as [|[k n] rest IH]; simpl.
  - destruct (bool_decide (c = c')); done.
  - destruct (bool_decide (k = c)) eqn:Ek; simpl.
    + apply bool_decide_eq_true in Ek as ->. by destruct (bool_decide (c = c')).
    + rewrite IH. destruct (bool_decide (k = c')) eqn:Ek'; [|done].
      apply bool_decide_eq_true in Ek' as ->.
      rewrite bool_decide_eq_false_2; [done|].
      apply bool_decide_eq_false in Ek. congruence.
Qed.

Lemma bump_keys c stats :
  NoDup (map fst stats) → NoDup (map fst (bump c stats)).
Proof.
  induction stats as [|[k n] rest IH]; simpl; intros Hnd.
  - apply NoDup_singleton.
  - apply NoDup_cons in Hnd as [Hk Hnd].
    destruct (bool_decide (k = c)) eqn:Ek; simpl.
    + by apply NoDup_cons.
    + apply bool_decide_eq_false in Ek. apply NoDup_cons. split; [|by apply IH].
      intros [[k' n'] [Hk' Hin]]%list_elem_of_fmap. simpl in Hk'. subst k'.
      apply Hk. clear IH Hk Hnd.
      induction rest as [|[k2 n2] rest IH]; simpl in *.
      * apply list_elem_of_singleton in Hin. congruence.
      * destruct (bool_decide (k2 = c)).
        -- apply elem_of_cons in Hin as [[= -> _]|Hin]; [by left|].
           right. apply list_elem_of_fmap. by exists (k, n').
        -- apply elem_of_cons in Hin as [[= -> _]|Hin]; [by left|].
           right. by apply IH.
Qed.

Lemma sum_of_bump c stats :
  (∀ k n, (k, n) ∈ stats → 0 < n) →
  sum_of snd (bump c stats) = sum_of snd stats + 1 ∧
  (∀ k n, (k, n) ∈ bump c stats → 0 < n).
Proof.
  induction stats as [|[k n] rest IH]; simpl; intros Hpos.
  - split; [done|]. intros k n [= _ ->]%list_elem_of_singleton. lia.
  - assert (0 < n) as Hn by (apply (Hpos k); by left).
    assert (∀ k0 n0, (k0, n0) ∈ rest → 0 < n0) as Hrest
      by (intros k0 n0 ?; apply (Hpos k0); by right).
    destruct (bool_decide (k = c)); simpl.
    + unfold or_zero. destruct (n =? 0) eqn:E; [apply Z.eqb_eq in E; lia|].
      split; [lia|].
      intros k0 n0 [[= _ ->]|Hin]%elem_of_cons; [lia|by apply (Hrest k0)].
    + destruct (IH Hrest) as [Hsum Hpos']. split; [lia|].
      intros k0 n0 [[= _ ->]|Hin]%elem_of_cons; [done|by apply (Hpos' k0)].
Qed.

Lemma catStats_fold qs seen stats :
  (∀ c, stat_of c stats = stat_value (count_of (λ q, category q = c) seen)) →
  NoDup (map fst stats) →
  (∀ k n, (k, n) ∈ stats → 0 < n) →
  sum_of snd stats = array_length seen →
  let stats' := fold_left (λ stats q, bump (category q) stats) qs stats in
  (∀ c, stat_of c stats' = stat_value (count_of (λ q, category q = c) (seen ++ qs))) ∧
  NoDup (map fst stats') ∧
  (∀ k n, (k, n) ∈ stats' → 0 < n) ∧
  sum_of snd stats' = array_length (seen ++ qs).
Proof.
  revert seen stats. induction qs as [|q qs IH]; intros seen stats Hst Hnd Hpos Hsum; simpl.
  - by rewrite app_nil_r.
  - destruct (sum_of_bump (category q) stats Hpos) as [Hsum' Hpos'].
    replace (seen ++ q :: qs) with ((seen ++ [q]) ++ qs) by (by rewrite <- app_assoc).
    apply IH; [|by apply bump_keys|done|].
    + intros c. rewrite stat_of_bump, Hst.
      unfold count_of, array_length.
      rewrite filter_app, length_app, filter_cons, filter_nil.
      destruct (bool_decide (category q = c)) eqn:E.
      * apply bool_decide_eq_true in E. rewrite decide_True by done.
        simpl. rewrite E, stat_value_step by lia. f_equal. lia.
      * apply bool_decide_eq_false in E. rewrite decide_False by done.
        simpl. by rewrite Nat.add_0_r.
    + rewrite Hsum', Hsum. unfold array_length. rewrite length_app. simpl. lia.
Qed.

End DashboardFacts.

(** X9. The counters of the dashboard: the entry of a category is the
    number of questions of that category and there is no entry for a
    category without questions; each category has at most one entry; the
    entries add up to the total, which is the length of the collection;
    and the number of priority questions is between 0 and the total. *)
Theorem dashboard_counts (qs : list Question) :
  (∀ c, Dashboard.stat_of c (Dashboard.catStats qs)
        = stat_value (count_of (λ q, category q = c) qs)) ∧
  NoDup (map fst (Dashboard.catStats qs)) ∧
  sum_of snd (Dashboard.catStats qs) = Dashboard.total qs ∧
  Dashboard.total qs = Z.of_nat (length qs) ∧
  0 ≤ Dashboard.priorityCount qs ≤ Dashboard.total qs.
Proof.
  destruct (catStats_fold qs [] []) as (Hst & Hnd & _ & Hsum); try done.
  { constructor. }
  { intros k n Hin. by apply elem_of_nil in Hin. }
  split_and!; try done.
  - unfold Dashboard.priorityCount, array_length. lia.
  - unfold Dashboard.priorityCount, Dashboard.total, array_length.
    pose proof (length_filter is_review_needed qs). lia.
Qed.

(** ** Consistency of pool and store *)

Section Consistency.

Implicit Types (q : Question) (qs pool : list Question) (w : World).

Lemma ids_inj qs q1 q2 :
  NoDup (map id qs) → q1 ∈ qs → q2 ∈ qs → id q1 = id q2 → q1 = q2.
Proof.
  intros Hnd [i Hi]%list_elem_of_lookup [j Hj]%list_elem_of_lookup Hid.
  assert (i = j) as ->.
  { apply (NoDup_lookup (map id qs) i j (id q1) Hnd).
    - by rewrite list_lookup_fmap, Hi.
    - by rewrite list_lookup_fmap, Hj, Hid. }
  congruence.
Qed.

Lemma NoDup_ids_sub qs pool (P : Question → Prop) `{!∀ q, Decision (P q)} :
  NoDup (map id qs) → pool ≡ₚ filter P qs →
  NoDup (map id pool) ∧ ∀ q, q ∈ pool → q ∈ qs.
Proof.
  intros Hnd Hperm. split.
  - rewrite Hperm. eapply sublist_NoDup; [exact Hnd|].
    apply fmap_sublist, sublist_filter.
  - intros q Hq. rewrite Hperm in Hq. by apply list_elem_of_filter in Hq as [_ ?].
Qed.

Lemma NoDup_ids_all qs pool :
  NoDup (map id qs) → pool ≡ₚ qs →
  NoDup (map id pool) ∧ ∀ q, q ∈ pool → q ∈ qs.
Proof.
  intros Hnd Hperm. split; [by rewrite Hperm|].
  intros q Hq. by rewrite <- Hperm.
Qed.

(** A state with the same store whose exam, if one runs, is the old one. *)
Lemma consistent_same w w' :
  questions w' = questions w →
  (mode (review w') = mode_exam →
   mode (review w) = mode_exam ∧
   examQuestions (review w') = examQuestions (review w)) →
  consistent w → consistent w'.
Proof.
  intros Hq Hr [Hnd Hpool]. split; [by rewrite Hq|].
  intros Hm. destruct (Hr Hm) as [Hm0 ->]. rewrite Hq. by apply Hpool.
Qed.

(** A state with the same store and a fresh pool taken from it. *)
Lemma consistent_start w w' :
  questions w' = questions w →
  NoDup (map id (examQuestions (review w'))) →
  (∀ q, q ∈ examQuestions (review w') → q ∈ questions w) →
  consistent w → consistent w'.
Proof. intros Hq Hnd Hin [Hs _]. split; [by rewrite Hq|]. intros _. by rewrite Hq. Qed.

Lemma array_set_ids pool i q q' :
  array_get pool i = Some q → id q' = id q →
  map id (array_set pool i q') = map id pool.
Proof.
  unfold array_get, array_set. destruct (0 <=? i); [|done]. intros Hget Hid.
  rewrite list_fmap_insert, Hid. apply list_insert_id.
  by rewrite list_lookup_fmap, Hget.
Qed.

Lemma elem_of_updated_by q' qs q :
  q ∈ qs → id q ≠ id q' → q ∈ updated_by q' qs.
Proof.
  intros Hq Hid. apply list_elem_of_fmap. exists q. split; [|done].
  by apply String.eqb_neq in Hid as ->.
Qed.

Lemma elem_of_updated_by_new q' qs q :
  q ∈ qs → id q = id q' → q' ∈ updated_by q' qs.
Proof.
  intros Hq Hid. apply list_elem_of_fmap. exists q. split; [|done].
  by apply String.eqb_eq in Hid as ->.
Qed.

(** The question at the current position is replaced, in the pool and in
    the store, by a record with its id. *)
Lemma consistent_update w w' q q' :
  mode (review w) = mode_exam →
  array_get (examQuestions (review w)) (currentExamIndex (review w)) = Some q →
  id q' = id q →
  questions w' = updated_by q' (questions w) →
  (mode (review w') = mode_exam →
   examQuestions (review w')
   = array_set (examQuestions (review w)) (currentExamIndex (review w)) q') →
  consistent w → consistent w'.
Proof.
  intros Hm Hget Hid Hq Hp [Hnd Hpool]. destruct (Hpool Hm) as [Hnp Hsub].
  split; [by rewrite Hq, updated_by_ids|].
  intros Hm'. rewrite (Hp Hm'), Hq. split.
  - by rewrite (array_set_ids _ _ q).
  - intros p [j Hj]%list_elem_of_lookup.
    unfold array_get, array_set in *.
    destruct (0 <=? currentExamIndex (review w)); [|done].
    apply list_lookup_insert_Some in Hj as [(<- & <- & _)|[Hne Hj]].
    + apply (elem_of_updated_by_new _ _ q); [|done].
      apply Hsub, list_elem_of_lookup. eauto.
    + apply elem_of_updated_by; [apply Hsub, list_elem_of_lookup; eauto|].
      intros Hidp. apply Hne.
      apply (NoDup_lookup (map id (examQuestions (review w))) _ _ (id q) Hnp).
      * by rewrite list_lookup_fmap, Hget.
      * rewrite list_lookup_fmap, Hj. simpl. congruence.
Qed.

Lemma handleNext_consistent now w w' :
  mode (review w) = mode_exam →
  handleNext now w = Return w' → consistent w → consistent w'.
Proof.
  intros Hm Hnext. unfold handleNext in Hnext.
  destruct (array_get _ _) as [currentQ|] eqn:Hget; [|done].
  apply (consistent_update w w' currentQ (with_review_pass currentQ now));
    try done.
  - by destruct (_ <? _); injection Hnext as <-.
  - destruct (_ <? _); injection Hnext as <-; [done|]. simpl. done.
Qed.

Lemma handleUpdateMastery_consistent q status w w' :
  mode (review w) = mode_exam →
  array_get (examQuestions (review w)) (currentExamIndex (review w)) = Some q →
  handleUpdateMastery q status w = Some w' → consistent w → consistent w'.
Proof.
  intros Hm Hget Hup. unfold handleUpdateMastery in Hup.
  destruct (in_bounds _ _); [|done]. injection Hup as <-.
  by apply (consistent_update w _ q (with_masteryStatus q status)).
Qed.

Lemma startRandomExam_consistent g w :
  consistent w → consistent (startRandomExam g w).1.
Proof.
  intros Hc. pose proof Hc as [Hnd _]. unfold startRandomExam.
  set (pool := if bool_decide _ then _ else _).
  destruct (array_length pool =? 0); [by apply (consistent_same w)|].
  pose proof (shuffle_perm pool g) as Hperm.
  destruct (shuffle pool g) as [shuffled g']. simpl in *.
  destruct (bool_decide (filterMode (review w) = filter_priority));
    [destruct (NoDup_ids_sub _ _ _ Hnd Hperm)|destruct (NoDup_ids_all _ _ Hnd Hperm)];
    by apply (consistent_start w).
Qed.

Lemma period_click_consistent LocalTZA period g w :
  consistent w → consistent (period_click LocalTZA period g w).1.
Proof.
  intros Hc. pose proof Hc as [Hnd _]. unfold period_click.
  destruct (group_of period _) as [group|] eqn:Hg; [|done].
  destruct (negb (exam_view w) && _); [|done].
  rewrite group_of_periodGroups in Hg. unfold startPeriodExam.
  pose proof (shuffle_perm group g) as Hperm.
  destruct (shuffle group g) as [shuffled g']. simpl in *.
  assert (group = filter (λ q, getPeriodKey LocalTZA (createdAt q) = period)
                    (questions w)) as ->.
  { unfold group_value in Hg. destruct (filter _ _); [done|]. by injection Hg. }
  destruct (NoDup_ids_sub _ _ _ Hnd Hperm). by apply (consistent_start w).
Qed.

Lemma save_consistent f now_id now_created w :
  activeTab w = tab_add →
  (truthy (AddQuestion.image f) = true →
   Number_toString now_id ∉ map id (questions w)) →
  consistent w → consistent (AddQuestion.save f now_id now_created w).
Proof.
  intros Htab Hfresh [Hnd Hpool]. unfold AddQuestion.save, AddQuestion.handleSave.
  destruct (AddQuestion.image f) as [[|c img]|]; simpl in *; try done.
  split; simpl.
  - apply NoDup_cons. split; [by apply Hfresh|done].
  - by rewrite Htab.
Qed.

Lemma exam_view_mode w : exam_view w = true → mode (review w) = mode_exam.
Proof. by intros [?%bool_decide_eq_true _]%andb_true_iff. Qed.

End Consistency.

Section EventEffects.

Variable LocalTZA : Z → Z.
Implicit Types (e : Event) (w : World) (g : Rng).

Lemma consistent_initial (qs : list Question) (store : Storage) :
  NoDup (map id qs) → consistent (World_initial qs store).
Proof. intros Hnd. by split. Qed.

Lemma dispatch_handle e w g w' g' :
  dispatch LocalTZA e w g = Return (w', g') → handle LocalTZA e w g = Return (w', g').
Proof.
  unfold dispatch. destruct (handle LocalTZA e w g) as [[w1 g1]|]; [|done].
  by destruct (render w1).
Qed.

Lemma handle_consistent e w g w' g' :
  consistent w → fresh_id e w →
  handle LocalTZA e w g = Return (w', g') → consistent w'.
Proof.
  intros Hc Hfresh. destruct e; simpl.
  - intros [= <- _]. apply (consistent_same w); [done| |done].
    unfold setActiveTab. simpl. by destruct (bool_decide _).
  - destruct (bool_decide (activeTab w = tab_add)) eqn:Htab; intros [= <- _]; [|done].
    apply bool_decide_eq_true in Htab. by apply save_consistent.
  - destruct (_ && negb (exam_view w)); [|by intros [= <- _]].
    intros [= H]. replace w' with (startRandomExam g w).1 by (by rewrite H).
    by apply startRandomExam_consistent.
  - destruct (_ && negb (exam_view w)); [|by intros [= <- _]].
    intros [= H].
    replace w' with (period_click LocalTZA period g w).1 by (by rewrite H).
    by apply period_click_consistent.
  - destruct (_ && negb (exam_view w)); intros [= <- _]; [|done].
    by apply (consistent_same w).
  - destruct (_ && exam_view w); intros [= <- _]; [|done].
    by apply (consistent_same w).
  - destruct (_ && exam_view w && _); intros [= <- _]; [|done].
    by apply (consistent_same w).
  - destruct (array_get _ _) as [q|] eqn:Hget; [|by intros [= <- _]].
    destruct (bool_decide (activeTab w = tab_review) && exam_view w) eqn:Hexam;
      simpl; [|by intros [= <- _]].
    apply andb_true_iff in Hexam as [_ Hm%exam_view_mode].
    destruct (_ && _ && _); [|by intros [= <- _]].
    destruct (handleUpdateMastery q status w) as [w1|] eqn:Hup; intros [= <- _]; [|done].
    by apply (handleUpdateMastery_consistent q status w).
  - destruct (bool_decide _); intros [= <- _]; [|done].
    apply (consistent_same w); [| |done]; unfold previous_click;
      by destruct (exam_view w && _).
  - destruct (bool_decide (activeTab w = tab_review) && exam_view w) eqn:Hexam;
      [|by intros [= <- _]].
    apply andb_true_iff in Hexam as [_ Hm%exam_view_mode].
    destruct (handleNext now w) as [w1|] eqn:Hnext; intros [= <- _].
    by apply (handleNext_consistent now w).
Qed.

Lemma sum_of_updated_by (q q' : Question) (qs : list Question) :
  NoDup (map id qs) → q ∈ qs → id q' = id q →
  sum_of reviewCount (updated_by q' qs)
  = sum_of reviewCount qs + (reviewCount q' - reviewCount q).
Proof.
  intros Hnd Hq Hid. induction qs as [|x qs IH]; [by apply elem_of_nil in Hq|].
  simpl in Hnd. apply NoDup_cons in Hnd as [Hx Hnd]. simpl.
  apply elem_of_cons in Hq as [->|Hq].
  - rewrite Hid, String.eqb_refl.
    fold (updated_by q' qs). rewrite updated_by_no_match; [lia|].
    intros item Hitem Heq. apply Hx. rewrite <- Hid, <- Heq.
    apply list_elem_of_fmap. by exists item.
  - fold (updated_by q' qs). rewrite IH by done.
    assert (id x ≠ id q') as Hne.
    { intros Heq. apply Hx. rewrite Heq, Hid. apply list_elem_of_fmap. by exists q. }
    apply String.eqb_neq in Hne as ->. lia.
Qed.

(** How an event changes the store: not at all, by a new question in
    front, or by replacing the current question of the exam. *)
Lemma handle_store e w g w' g' :
  consistent w → handle LocalTZA e w g = Return (w', g') →
  (questions w' = questions w ∧ records_review e w = false) ∨
  (∃ newQ, questions w' = newQ :: questions w ∧ reviewCount newQ = 0 ∧
           records_review e w = false) ∨
  (∃ q q', q ∈ questions w ∧ id q' = id q ∧ createdAt q' = createdAt q ∧
           questions w' = updated_by q' (questions w) ∧
           reviewCount q' = reviewCount q + (if records_review e w then 1 else 0)).
Proof.
  intros Hc. destruct e; simpl.
  - intros [= <- _]. by left.
  - destruct (bool_decide _); intros [= <- _]; [|by left].
    unfold AddQuestion.save, AddQuestion.handleSave.
    destruct (AddQuestion.image f) as [[|c img]|]; simpl; [by left| |by left].
    right; left. by eexists.
  - destruct (_ && negb (exam_view w)); [|intros [= <- _]; by left].
    intros [= H]. replace w' with (startRandomExam g w).1 by (by rewrite H).
    left. split; [|done].
    unfold startRandomExam. destruct (_ =? 0); [done|]. by destruct (shuffle _ g).
  - destruct (_ && negb (exam_view w)); [|intros [= <- _]; by left].
    intros [= H].
    replace w' with (period_click LocalTZA period g w).1 by (by rewrite H).
    left. split; [|done].
    unfold period_click. destruct (group_of _ _); [|done].
    destruct (_ && _); [|done]. unfold startPeriodExam. by destruct (shuffle _ g).
  - destruct (_ && negb (exam_view w)); intros [= <- _]; by left.
  - destruct (_ && exam_view w); intros [= <- _]; by left.
  - destruct (_ && exam_view w && _); intros [= <- _]; by left.
  - destruct (array_get _ _) as [q|] eqn:Hget; [|intros [= <- _]; by left].
    destruct (bool_decide (activeTab w = tab_review) && exam_view w) eqn:Hexam;
      simpl; [|intros [= <- _]; by left].
    apply andb_true_iff in Hexam as [_ Hm%exam_view_mode].
    destruct (_ && _ && _); [|intros [= <- _]; by left].
    unfold handleUpdateMastery. destruct (in_bounds _ _); intros [= <- _]; [|by left].
    right; right. exists q, (with_masteryStatus q status).
    split_and!; try done; [|simpl; lia].
    destruct Hc as [_ Hpool]. apply (Hpool Hm).
    unfold array_get in Hget. destruct (0 <=? _); [|done].
    apply list_elem_of_lookup. eauto.
  - destruct (bool_decide _); intros [= <- _]; [|by left].
    left. split; [|done]. unfold previous_click. by destruct (exam_view w && _).
  - destruct (bool_decide (activeTab w = tab_review) && exam_view w) eqn:Hexam;
      [|intros [= <- _]; by left].
    apply andb_true_iff in Hexam as [_ Hm%exam_view_mode].
    unfold handleNext.
    destruct (array_get _ _) as [currentQ|] eqn:Hget; [|done].
    intros H. right; right. exists currentQ, (with_review_pass currentQ now).
    destruct (with_review_pass_frame currentQ now) as (Hcount & _ & _).
    split_and!; try done.
    + destruct Hc as [_ Hpool]. apply (Hpool Hm).
      unfold array_get in Hget. destruct (0 <=? _); [|done].
      apply list_elem_of_lookup. eauto.
    + by destruct (_ <? _); injection H as <-.
Qed.

End EventEffects.

(** X10. Pool and store stay consistent: if the ids of the store are
    pairwise different and the pool of a running exam consists of store
    records with pairwise different ids, this still holds after any user
    event that returns, provided a save takes an id that is not in the
    store; the mounted app over a collection with pairwise different ids
    is in such a state. *)
Theorem consistency_is_kept (LocalTZA : Z → Z) (e : Event) (w w' : World)
    (g g' : Rng) :
  consistent w → fresh_id e w →
  dispatch LocalTZA e w g = Return (w', g') →
  consistent w' ∧
  ∀ qs store, NoDup (map id qs) → consistent (World_initial qs store).
Proof.
  intros Hc Hfresh Hd. split.
  - eapply handle_consistent; [exact Hc|exact Hfresh|by apply dispatch_handle].
  - intros qs store. apply consistent_initial.
Qed.

(** The sample exam is consistent. *)
Lemma sample_exam_consistent : consistent (Samples.w_exam 0 false).
Proof.
  assert (NoDup (map id Samples.store)) as Hstore.
  { simpl. repeat (apply NoDup_cons; split;
      [intros H; repeat (apply elem_of_cons in H as [H|H]; [discriminate H|]);
       by apply elem_of_nil in H|]).
    constructor. }
  split; [exact Hstore|]. intros _. split.
  - simpl. repeat (apply NoDup_cons; split;
      [intros H; repeat (apply elem_of_cons in H as [H|H]; [discriminate H|]);
       by apply elem_of_nil in H|]).
    constructor.
  - intros q Hq. simpl in Hq |- *. unfold Samples.store.
    repeat (apply elem_of_cons in Hq as [->|Hq];
            [repeat (first [by left|right])|]).
    by apply elem_of_nil in Hq.
Qed.

(** After advancing in the sample exam the ids are still pairwise
    different. *)
Lemma consistency_is_kept_witness :
  match dispatch Samples.CST (ClickNext 1710600000000) (Samples.w_exam 0 false)
          Samples.rng with
  | Return (w', _) => NoDup (map id (questions w'))
  | Throw _ => False
  end.
Proof.
  destruct (dispatch Samples.CST (ClickNext 1710600000000) (Samples.w_exam 0 false)
              Samples.rng) as [[w' g']|err] eqn:Hd.
  - by destruct (consistency_is_kept Samples.CST (ClickNext 1710600000000)
                   (Samples.w_exam 0 false) w' Samples.rng g'
                   sample_exam_consistent I Hd) as [[? _] _].
  - vm_compute in Hd. discriminate Hd.
Defined.

(** X11. Review counts only grow, one pass at a time: in a consistent
    state every user event that returns keeps, for each question of the
    store, a question with the same id and creation time whose review
    count is not smaller, and the sum of all review counts grows by
    exactly one for the next button of a rendered exam and stays the same
    for every other event. *)
Theorem review_counts_only_grow (LocalTZA : Z → Z) (e : Event) (w w' : World)
    (g g' : Rng) :
  consistent w →
  dispatch LocalTZA e w g = Return (w', g') →
  (∀ q, q ∈ questions w →
     ∃ q', q' ∈ questions w' ∧ id q' = id q ∧ createdAt q' = createdAt q ∧
           reviewCount q ≤ reviewCount q') ∧
  total_reviews w' = total_reviews w + (if records_review e w then 1 else 0).
Proof.
  intros Hc Hd. apply dispatch_handle in Hd.
  destruct (handle_store LocalTZA e w g w' g' Hc Hd)
    as [[Hq ->]|[(newQ & Hq & Hzero & ->)|(q0 & q' & Hin & Hid & Hcreated & Hq & Hcount)]];
    unfold total_reviews; rewrite Hq.
  - split; [|lia]. intros q ?. exists q. split_and!; [done..|lia].
  - split; [|simpl; lia]. intros q ?. exists q. split_and!; [by right|done..|lia].
  - destruct Hc as [Hnd _]. split.
    + intros q Hqin. destruct (decide (id q = id q')) as [Heq|Hne].
      * assert (q = q0) as -> by (apply (ids_inj (questions w)); congruence).
        exists q'. split_and!; [by apply (elem_of_updated_by_new _ _ q0)|done..|].
        rewrite Hcount. destruct (records_review e w); lia.
      * exists q. split_and!; [by apply elem_of_updated_by|done..|lia].
    + rewrite (sum_of_updated_by q0 q') by done. rewrite Hcount. lia.
Qed.

(** Advancing in the sample exam records one more review pass. *)
Lemma review_counts_only_grow_witness :
  match dispatch Samples.CST (ClickNext 1710600000000) (Samples.w_exam 0 false)
          Samples.rng with
  | Return (w', _) => total_reviews w' = total_reviews (Samples.w_exam 0 false) + 1
  | Throw _ => False
  end.
Proof.
  destruct (dispatch Samples.CST (ClickNext 1710600000000) (Samples.w_exam 0 false)
              Samples.rng) as [[w' g']|err] eqn:Hd.
  - by destruct (review_counts_only_grow Samples.CST (ClickNext 1710600000000)
                   (Samples.w_exam 0 false) w' Samples.rng g'
                   sample_exam_consistent Hd) as [_ ?].
  - vm_compute in Hd. discriminate Hd.
Defined.

(** ** Reading back what was saved *)

Section RoundTrip.

Import JSON.

Implicit Types (s text rest acc : string) (c : ascii) (stk : list frame)
  (v : json) (k : bool).

Lemma append_cons c s rest : String c s +:+ rest = String c (s +:+ rest).
Proof. reflexivity. Qed.

Lemma append_nil_l s : "" +:+ s = s.
Proof. reflexivity. Qed.

Lemma append_assoc s1 s2 s3 : (s1 +:+ s2) +:+ s3 = s1 +:+ (s2 +:+ s3).
Proof.
  induction s1 as [|c s1 IH]; [done|]. rewrite !append_cons. by f_equal.
Qed.

Lemma append_nil_r s : s +:+ "" = s.
Proof. induction s as [|c s IH]; [done|]. rewrite append_cons. by f_equal. Qed.

Lemma run_app st text rest :
  run st (text +:+ rest) =
    match run st text with
    | Some st' => run st' rest
    | None => None
    end.
Proof.
  revert st. induction text as [|c text IH]; intros st; [done|].
  rewrite append_cons. simpl. destruct (step st c); [apply IH|done].
Qed.

Lemma rev_string_app s1 s2 acc :
  rev_string (s1 +:+ s2) acc = rev_string s2 (rev_string s1 acc).
Proof.
  revert acc. induction s1 as [|c s1 IH]; intros acc; [done|].
  rewrite append_cons. simpl. apply IH.
Qed.

Lemma rev_string_rev_string s acc acc' :
  rev_string (rev_string s acc) acc' = rev_string acc (s +:+ acc').
Proof.
  revert acc acc'. induction s as [|c s IH]; intros acc acc'; [done|].
  simpl. by rewrite IH.
Qed.

Lemma rev_string_involutive s : rev_string (rev_string s "") "" = s.
Proof. rewrite rev_string_rev_string. simpl. apply append_nil_r. Qed.

(** The escaped form of a character is read as part of a string. *)
Lemma quote_char_run c k acc stk :
  run (PString k acc, stk) (quote_char c)
  = Some (PString k (rev_string (quote_char c) acc), stk).
Proof. destruct c as [[] [] [] [] [] [] [] []]; reflexivity. Qed.

Lemma quote_body_run s k acc stk rest :
  run (PString k acc, stk) (quote_body s +:+ rest)
  = run (PString k (rev_string (quote_body s) acc), stk) rest.
Proof.
  revert acc. induction s as [|c s IH]; intros acc; [done|].
  cbn [quote_body].
  rewrite append_assoc, run_app, quote_char_run, IH.
  by rewrite rev_string_app.
Qed.

(** A complete value is followed by what [after_value] accepts. *)
Lemma step_complete v stk st c :
  complete v stk = Some st → step st c = after_value st c.
Proof.
  destruct stk as [|[items|ms [key|]] stk]; simpl; intros [= <-]; reflexivity.
Qed.

Lemma run_after_cons v stk c rest :
  run_after v stk (String c rest) =
    match complete v stk with
    | Some st =>
        match after_value st c with
        | Some st' => run st' rest
        | None => None
        end
    | None => None
    end.
Proof.
  unfold run_after. destruct (complete v stk) as [st|] eqn:E; [|done].
  simpl. by rewrite (step_complete v stk st c E).
Qed.

(** A string literal where a value may start. *)
Lemma quote_run s stk rest :
  run (PValue, stk) (quote s +:+ rest) = run_after (JString (quote_body s)) stk rest.
Proof.
  unfold quote. rewrite append_cons. simpl.
  rewrite append_assoc, quote_body_run, append_cons. simpl.
  unfold run_after, end_string. by rewrite rev_string_involutive.
Qed.

Lemma quote_parses s : parses_as (quote s) (JString (quote_body s)).
Proof. intros stk c rest _. apply quote_run. Qed.

Lemma null_parses : parses_as "null" JNull.
Proof. intros stk c rest _. reflexivity. Qed.

(** Digits continue the integer part of a number. *)
Lemma digits_run s acc stk rest :
  string_all is_digit s = true →
  run (PNumber NInt acc, stk) (s +:+ rest)
  = run (PNumber NInt (rev_string s acc), stk) rest.
Proof.
  revert acc. induction s as [|c s IH]; intros acc Hs; [done|].
  simpl in Hs. apply andb_true_iff in Hs as [Hc Hs].
  rewrite append_cons. simpl. rewrite Hc. by apply IH.
Qed.

(** The number automaton stops at a delimiter. *)
Lemma number_ends ns acc stk c rest :
  is_delim c = true → num_final ns = true →
  run (PNumber ns acc, stk) (String c rest)
  = run_after (JNumber (rev_string acc "")) stk (String c rest).
Proof.
  intros Hc Hfinal. rewrite run_after_cons. simpl.
  assert (num_step ns c = None) as ->.
  { destruct c as [[] [] [] [] [] [] [] []]; try discriminate Hc;
      by destruct ns. }
  rewrite Hfinal. destruct (complete _ stk) as [st|]; [|done].
  by destruct (after_value st c).
Qed.

(** A digit other than 0 starts the integer part. *)
Lemma nonzero_digit_start d acc stk :
  is_digit d = true → d ≠ "0"%char →
  step (PValue, stk) d = Some (PNumber NInt (String d ""), stk) ∧
  step (PNumber NMinus acc, stk) d = Some (PNumber NInt (String d acc), stk).
Proof.
  intros Hd H0. destruct d as [[] [] [] [] [] [] [] []]; try discriminate Hd; done.
Qed.

(** The numeral of a positive number: a digit other than 0, then
    digits. *)
Lemma to_uint_no_leading_zero (p : positive) u : Pos.to_uint p ≠ Decimal.D0 u.
Proof.
  intros Hp.
  assert (Decimal.unorm (Pos.to_uint p) = Pos.to_uint p) as Hnorm.
  { rewrite <- (DecimalPos.Unsigned.to_of (Pos.to_uint p)).
    by rewrite DecimalPos.Unsigned.of_to. }
  unfold Decimal.unorm in Hnorm.
  destruct (Decimal.nzhead (Pos.to_uint p)) eqn:Hz.
  - apply (DecimalPos.Unsigned.to_uint_nonzero p). by rewrite <- Hnorm.
  - rewrite Hp in Hnorm. injection Hnorm as ->.
    by apply DecimalFacts.nzhead_nonzero in Hz.
  - rewrite Hp in Hnorm. discriminate.
  - rewrite Hp in Hnorm. discriminate.
  - rewrite Hp in Hnorm. discriminate.
  - rewrite Hp in Hnorm. discriminate.
  - rewrite Hp in Hnorm. discriminate.
  - rewrite Hp in Hnorm. discriminate.
  - rewrite Hp in Hnorm. discriminate.
  - rewrite Hp in Hnorm. discriminate.
  - rewrite Hp in Hnorm. discriminate.
Qed.

Lemma positive_numeral (p : positive) :
  ∃ d ds, NilZero.string_of_uint (Pos.to_uint p) = String d ds ∧
          is_digit d = true ∧ d ≠ "0"%char ∧ string_all is_digit ds = true.
Proof.
  pose proof (to_uint_no_leading_zero p) as Hz.
  pose proof (DecimalPos.Unsigned.to_uint_nonnil p) as Hn.
  pose proof (string_of_uint_digits (Pos.to_uint p)) as Hd.
  destruct (Pos.to_uint p) as [|u|u|u|u|u|u|u|u|u|u]; simpl in *;
    [done|by destruct (Hz u)|..]; eexists _, _; (split; [reflexivity|]);
    by split_and!.
Qed.

Lemma Number_toString_parses (z : Z) :
  parses_as (Number_toString z) (JNumber (Number_toString z)).
Proof.
  intros stk c rest Hc. unfold Number_toString.
  destruct z as [|p|p].
  - change (run (PNumber NZero "0", stk) (String c rest)
            = run_after (JNumber (rev_string "0" "")) stk (String c rest)).
    by apply number_ends.
  - destruct (positive_numeral p) as (d & ds & Ht & Hd & H0 & Hds).
    change (NilZero.string_of_int (Z.to_int (Z.pos p)))
      with (NilZero.string_of_uint (Pos.to_uint p)).
    rewrite Ht, append_cons.
    destruct (nonzero_digit_start d "" stk Hd H0) as [Hstart _].
    change (run (PValue, stk) (String d (ds +:+ String c rest)))
      with (match step (PValue, stk) d with
            | Some st => run st (ds +:+ String c rest)
            | None => None
            end).
    rewrite Hstart, digits_run, number_ends by done.
    do 2 f_equal.
    change (rev_string ds (String d "")) with (rev_string (String d ds) "").
    apply rev_string_involutive.
  - destruct (positive_numeral p) as (d & ds & Ht & Hd & H0 & Hds).
    change (NilZero.string_of_int (Z.to_int (Z.neg p)))
      with (String "-" (NilZero.string_of_uint (Pos.to_uint p))).
    rewrite Ht, !append_cons.
    destruct (nonzero_digit_start d "-" stk Hd H0) as [_ Hstart].
    change (run (PValue, stk) (String "-" (String d (ds +:+ String c rest))))
      with (match step (PNumber NMinus "-", stk) d with
            | Some st => run st (ds +:+ String c rest)
            | None => None
            end).
    rewrite Hstart, digits_run, number_ends by done.
    do 2 f_equal.
    change (rev_string ds (String d "-"))
      with (rev_string (String "-" (String d ds)) "").
    apply rev_string_involutive.
Qed.

(** One property of an object, up to the delimiter after its value. *)
Lemma member_run (m : string * string * json) (acc : list (string * json)) stk ph c rest :
  ph = PObjectStart ∨ ph = PKey →
  parses_as m.1.2 m.2 → is_delim c = true →
  run (ph, FObject acc None :: stk) (member_text m +:+ String c rest)
  = match after_value (PAfter, FObject (member_json m :: acc) None :: stk) c with
    | Some st => run st rest
    | None => None
    end.
Proof.
  intros Hph Hm Hc. destruct m as [[key text] v]. simpl in Hm.
  unfold member_text, member_json, member, quote. simpl fst; simpl snd.
  repeat (rewrite ?append_assoc, ?append_cons, ?append_nil_l).
  assert (step (ph, FObject acc None :: stk) dquote
          = Some (PString true "", FObject acc None :: stk)) as Hstart
    by (by destruct Hph as [-> | ->]).
  change (run (ph, FObject acc None :: stk) (String dquote ?t))
    with (match step (ph, FObject acc None :: stk) dquote with
          | Some st => run st t
          | None => None
          end).
  rewrite Hstart, quote_body_run.
  change (run (PString true (rev_string (quote_body key) ""), FObject acc None :: stk)
            (String dquote (String ":" (text +:+ String c rest))))
    with (run (PValue, FObject acc (Some (rev_string (rev_string (quote_body key) "") ""))
                 :: stk) (text +:+ String c rest)).
  rewrite rev_string_involutive, (Hm _ c rest Hc), run_after_cons.
  reflexivity.
Qed.

(** The properties of an object up to its closing brace. *)
Lemma members_run (m : string * string * json) ms (acc : list (string * json))
    stk ph rest :
  ph = PObjectStart ∨ ph = PKey →
  Forall (λ m, parses_as m.1.2 m.2) (m :: ms) →
  run (ph, FObject acc None :: stk)
    (join "," (map member_text (m :: ms)) +:+ String "}" rest)
  = run_after (JObject (rev acc ++ map member_json (m :: ms))) stk rest.
Proof.
  revert m acc ph. induction ms as [|m' ms IH]; intros m acc ph Hph Hall.
  - apply list.Forall_cons in Hall as [Hm _].
    change (join "," (map member_text [m])) with (member_text m).
    rewrite (member_run m acc stk ph "}" rest Hph Hm eq_refl).
    reflexivity.
  - apply list.Forall_cons in Hall as [Hm Hall].
    change (join "," (map member_text (m :: m' :: ms)))
      with (member_text m +:+ "," +:+ join "," (map member_text (m' :: ms))).
    repeat (rewrite ?append_assoc, ?append_cons, ?append_nil_l).
    rewrite (member_run m acc stk ph "," _ Hph Hm eq_refl).
    change (after_value (PAfter, FObject (member_json m :: acc) None :: stk) ",")
      with (Some (PKey, FObject (member_json m :: acc) None :: stk)).
    cbv beta iota.
    rewrite (IH m' (member_json m :: acc) PKey (or_intror eq_refl) Hall).
    simpl rev. by rewrite <- app_assoc.
Qed.

Lemma Question_members_parse (q : Question) :
  Forall (λ m, parses_as m.1.2 m.2) (Question_members q).
Proof.
  unfold Question_members.
  repeat first
    [ apply Forall_nil_2
    | apply list.Forall_cons; split
    | apply Forall_app; split ];
    simpl;
    try apply quote_parses; try apply Number_toString_parses.
  - destruct (rootCause q); [|constructor].
    apply list.Forall_cons; split; [apply quote_parses|constructor].
  - destruct (masteryStatus q) as [[]|]; try constructor; simpl;
      try apply quote_parses; try apply null_parses; constructor.
  - destruct (lastReviewedAt q); simpl;
      [apply Number_toString_parses|apply null_parses].
Qed.

Lemma stringify_Question_members (q : Question) :
  stringify_Question q
  = "{" +:+ join "," (map member_text (Question_members q)) +:+ "}".
Proof.
  unfold stringify_Question, Question_members.
  destruct (rootCause q), (masteryStatus q) as [[]|], (lastReviewedAt q);
    reflexivity.
Qed.

(** An object where a value or the first element of an array may start. *)
Lemma Question_run (q : Question) stk ph rest :
  ph = PValue ∨ ph = PArrayStart →
  run (ph, stk) (stringify_Question q +:+ rest) = run_after (Question_json q) stk rest.
Proof.
  intros Hph. rewrite stringify_Question_members.
  pose proof (Question_members_parse q) as Hall. unfold Question_json.
  destruct (Question_members q) as [|m ms] eqn:E.
  { unfold Question_members in E. discriminate E. }
  rewrite !append_assoc, append_cons, append_nil_l.
  change ("}" +:+ rest) with (String "}" rest).
  assert (step (ph, stk) "{" = Some (PObjectStart, FObject [] None :: stk)) as Hstart
    by (by destruct Hph as [-> | ->]).
  change (run (ph, stk) (String "{" ?t))
    with (match step (ph, stk) "{" with
          | Some st => run st t
          | None => None
          end).
  rewrite Hstart.
  by rewrite (members_run m ms [] stk PObjectStart rest (or_introl eq_refl) Hall).
Qed.

(** The elements of an array up to its closing bracket. *)
Lemma elements_run (q : Question) qs (items : list json) stk ph rest :
  ph = PValue ∨ ph = PArrayStart →
  run (ph, FArray items :: stk)
    (join "," (map stringify_Question (q :: qs)) +:+ String "]" rest)
  = run_after (JArray (rev items ++ map Question_json (q :: qs))) stk rest.
Proof.
  revert q items ph. induction qs as [|q' qs IH]; intros q items ph Hph.
  - change (join "," (map stringify_Question [q])) with (stringify_Question q).
    rewrite (Question_run q _ ph _ Hph). reflexivity.
  - change (join "," (map stringify_Question (q :: q' :: qs)))
      with (stringify_Question q +:+ "," +:+
            join "," (map stringify_Question (q' :: qs))).
    rewrite !append_assoc, append_cons, append_nil_l.
    rewrite (Question_run q _ ph _ Hph).
    change (run_after (Question_json q) (FArray items :: stk) (String "," ?t))
      with (run (PValue, FArray (Question_json q :: items) :: stk) t).
    rewrite (IH q' (Question_json q :: items) PValue (or_introl eq_refl)).
    simpl rev. by rewrite <- app_assoc.
Qed.

Lemma parse_stringify (qs : list Question) :
  parse (stringify qs) = Return (JArray (map Question_json qs)).
Proof.
  destruct qs as [|q qs]; [reflexivity|].
  unfold parse, stringify.
  rewrite append_cons, append_nil_l.
  change (run (PValue, []) (String "[" ?t))
    with (run (PArrayStart, [FArray []]) t).
  change (join "," (map stringify_Question (q :: qs)) +:+ "]")
    with (join "," (map stringify_Question (q :: qs)) +:+ String "]" "").
  by rewrite (elements_run q qs [] [] PArrayStart "" (or_intror eq_refl)).
Qed.

End RoundTrip.


(** ** The saved text determines the collection *)

Section SavedText.

Import JSON.

Lemma unquote_quote_char (c : ascii) (s : string) :
  unquote_body (quote_char c +:+ s) = String c (unquote_body s).
Proof. destruct c as [[] [] [] [] [] [] [] []]; reflexivity. Qed.

Lemma unquote_quote_body (s : string) : unquote_body (quote_body s) = s.
Proof.
  induction s as [|c s IH]; [reflexivity|].
  change (quote_body (String c s)) with (quote_char c +:+ quote_body s).
  by rewrite unquote_quote_char, IH.
Qed.

Lemma quote_body_inj (s1 s2 : string) : quote_body s1 = quote_body s2 → s1 = s2.
Proof.
  intros H. rewrite <- (unquote_quote_body s1), <- (unquote_quote_body s2).
  by rewrite H.
Qed.

Lemma Subject_text_inj (s1 s2 : Subject) :
  Subject_text s1 = Subject_text s2 → s1 = s2.
Proof. destruct s1, s2; intros H; first [reflexivity | discriminate H]. Qed.

Lemma QuestionCategory_text_inj (c1 c2 : QuestionCategory) :
  QuestionCategory_text c1 = QuestionCategory_text c2 → c1 = c2.
Proof. destruct c1, c2; intros H; first [reflexivity | discriminate H]. Qed.

(** What property access gives on the object read back for a question. *)
Lemma Question_fields (q : Question) :
  let ms := map member_json (Question_members q) in
  let text (s : string) := Some (JString (quote_body s)) in
  let number (n : Z) := Some (JNumber (Number_toString n)) in
  assoc (quote_body "id") ms = text (id q) ∧
  assoc (quote_body "imageUrl") ms = text (imageUrl q) ∧
  assoc (quote_body "subject") ms = text (Subject_text (subject q)) ∧
  assoc (quote_body "category") ms = text (QuestionCategory_text (category q)) ∧
  assoc (quote_body "subCategory") ms = text (subCategory q) ∧
  assoc (quote_body "questionText") ms = text (questionText q) ∧
  assoc (quote_body "aiAnalysis") ms = text (aiAnalysis q) ∧
  assoc (quote_body "myThinking") ms = text (myThinking q) ∧
  assoc (quote_body "correctResolution") ms = text (correctResolution q) ∧
  assoc (quote_body "rootCause") ms
    = match rootCause q with Some r => text r | None => None end ∧
  assoc (quote_body "masteryStatus") ms
    = match masteryStatus q with
      | Some mastered => text "mastered"
      | Some review_needed => text "review_needed"
      | Some status_null => Some JNull
      | None => None
      end ∧
  assoc (quote_body "createdAt") ms = number (createdAt q) ∧
  assoc (quote_body "reviewCount") ms = number (reviewCount q) ∧
  assoc (quote_body "lastReviewedAt") ms
    = match lastReviewedAt q with Some t => number t | None => Some JNull end.
Proof.
  unfold Question_members.
  destruct (rootCause q), (masteryStatus q) as [[]|], (lastReviewedAt q);
    repeat split; reflexivity.
Qed.

Lemma Question_json_inj (q1 q2 : Question) :
  Question_json q1 = Question_json q2 → q1 = q2.
Proof.
  intros H.
  apply (f_equal (λ v, match v with JObject ms => ms | _ => [] end)) in H.
  change (map member_json (Question_members q1)
          = map member_json (Question_members q2)) in H.
  pose proof (Question_fields q1) as F. pose proof (Question_fields q2) as G.
  cbv zeta in F, G. rewrite H in F.
  destruct F as (F1 & F2 & F3 & F4 & F5 & F6 & F7 & F8 & F9 & F10 & F11 & F12
                 & F13 & F14).
  destruct G as (G1 & G2 & G3 & G4 & G5 & G6 & G7 & G8 & G9 & G10 & G11 & G12
                 & G13 & G14).
  rewrite F1 in G1. rewrite F2 in G2. rewrite F3 in G3. rewrite F4 in G4.
  rewrite F5 in G5. rewrite F6 in G6. rewrite F7 in G7. rewrite F8 in G8.
  rewrite F9 in G9. rewrite F10 in G10. rewrite F11 in G11.
  rewrite F12 in G12. rewrite F13 in G13. rewrite F14 in G14.
  clear F1 F2 F3 F4 F5 F6 F7 F8 F9 F10 F11 F12 F13 F14 H.
  injection G1 as G1%quote_body_inj. injection G2 as G2%quote_body_inj.
  injection G3 as G3%quote_body_inj%Subject_text_inj.
  injection G4 as G4%quote_body_inj%QuestionCategory_text_inj.
  injection G5 as G5%quote_body_inj. injection G6 as G6%quote_body_inj.
  injection G7 as G7%quote_body_inj. injection G8 as G8%quote_body_inj.
  injection G9 as G9%quote_body_inj.
  injection G12 as G12%Number_toString_inj.
  injection G13 as G13%Number_toString_inj.
  assert (rootCause q1 = rootCause q2) as G10'.
  { destruct (rootCause q1), (rootCause q2);
      first [discriminate G10 | reflexivity | idtac].
    injection G10 as G10%quote_body_inj. by rewrite G10. }
  assert (masteryStatus q1 = masteryStatus q2) as G11'.
  { destruct (masteryStatus q1) as [[]|], (masteryStatus q2) as [[]|];
      first [reflexivity | vm_compute in G11; discriminate G11]. }
  assert (lastReviewedAt q1 = lastReviewedAt q2) as G14'.
  { destruct (lastReviewedAt q1), (lastReviewedAt q2);
      first [discriminate G14 | reflexivity | idtac].
    injection G14 as G14%Number_toString_inj. by rewrite G14. }
  destruct q1, q2; simpl in *. by subst.
Qed.

Lemma Question_jsons_inj (qs1 qs2 : list Question) :
  map Question_json qs1 = map Question_json qs2 → qs1 = qs2.
Proof.
  revert qs2. induction qs1 as [|q1 qs1 IH]; intros [|q2 qs2] H;
    first [reflexivity | discriminate H | idtac].
  f_equal.
  - apply Question_json_inj.
    exact (f_equal (λ l, match l with v :: _ => v | [] => JNull end) H).
  - apply IH. exact (f_equal (λ l, match l with _ :: l' => l' | [] => [] end) H).
Qed.

End SavedText.

(** X13. Nothing is lost by saving: the text [saveQuestions] stores under
    the storage key determines the collection. Two collections that leave
    the same text there are the same list of questions, field by field
    (an absent [rootCause] or [masteryStatus] differs from a present one,
    and a [null] status from an absent one). *)
Theorem saved_text_determines_collection (qs1 qs2 : list Question)
    (s1 s2 : Storage) :
  saveQuestions qs1 s1 !! STORAGE_KEY = saveQuestions qs2 s2 !! STORAGE_KEY →
  qs1 = qs2.
Proof.
  unfold saveQuestions. rewrite !lookup_insert_eq. intros H.
  apply (f_equal (λ o, match o with Some text => JSON.parse text
                                  | None => Throw SyntaxError end)) in H.
  cbv beta iota in H. rewrite !parse_stringify in H.
  apply Question_jsons_inj.
  exact (f_equal (λ r, match r with
                       | Return (JSON.JArray items) => items
                       | _ => []
                       end) H).
Qed.

Lemma saved_text_determines_collection_witness :
  [Samples.qa; Samples.qc] = [Samples.qa; Samples.qc].
Proof.
  apply (saved_text_determines_collection _ _ ∅ ∅). reflexivity.
Defined.
